(** * The job-execution supervisor of the Redis worker (redis.go)

    A shallow embedding of [Worker] and of its methods [handle], [Shutdown],
    [Queue], [Run], [BeforeRun], [AfterRun], [Capacity] and [Usage].

    Time is logical: an instant is an integer number of ticks (nanoseconds)
    of the wall clock, computation takes no time, and a goroutine only lets time
    pass while it is blocked in a [select].  A [select] fires at the first
    instant at which one of its communications can proceed, and the choice
    among the communications that can proceed at that instant belongs to the
    scheduler (the Go specification makes it a uniform pseudo-random
    choice); the scheduler is a parameter of every run.

    Since no time passes between the firing of the racing select and the
    call of time.Since in the stop case, the time left computed there never
    wraps around in this model, whereas in a real run it does for a timeout
    within the elapsed time of the least duration.  The properties that go
    through the stop case are therefore stated for timeouts that are not
    negative, or no nearer than 2^62 to the least duration, for which the
    subtraction cannot wrap in a real run either. *)

From Stdlib Require Import ZArith List Bool Lia String.
Import ListNotations.
Open Scope Z_scope.

(** ** Values of the Go runtime *)

Module Go.

(** The error values that reach this package.  A Go [error] is an
    interface value: [None] is [nil]. *)
Inductive error_value : Type :=
| DeadlineExceeded            (* context.DeadlineExceeded *)
| Canceled                    (* context.Canceled *)
| ErrQueueShutdown            (* queue.ErrQueueShutdown *)
| ErrOther (msg : string).    (* any error made by a handler *)

Definition error : Type := option error_value.
Definition nil : error := None.

(** The value carried by a panic ([interface{}]).  A panic that recover()
    reports always carries a value: panic(nil) is raised by the runtime
    as a *runtime.PanicNilError. *)
Inductive any : Type :=
| AnyString (s : string)
| AnyError (e : error_value)
| AnyInt (n : Z)
| RuntimeError (msg : string).

(** What a call does in the end: it returns a value or it panics. *)
Inductive outcome (A : Type) : Type :=
| Returned (a : A)
| Panicked (p : any).
Arguments Returned {A} a.
Arguments Panicked {A} p.

(** time.Duration is an int64 count of nanoseconds. *)
Definition min_int64 : Z := - 2 ^ 63.
Definition max_int64 : Z := 2 ^ 63 - 1.
Definition is_int64 (z : Z) : Prop := min_int64 <= z <= max_int64.

(** Two's complement wrap-around of int64 arithmetic. *)
Definition wrap64 (z : Z) : Z := (z + 2 ^ 63) mod 2 ^ 64 - 2 ^ 63.

(** Time.Sub saturates at the extreme durations instead of wrapping. *)
Definition sat64 (z : Z) : Z := Z.max min_int64 (Z.min max_int64 z).

(** time.Since(start), evaluated at instant [t]. *)
Definition Since (start t : Z) : Z := sat64 (t - start).

(** ** Channels as seen by a receiver

    Every channel of this package is received from at most once by
    [handle], and is either a buffer of capacity one that is sent to at
    most once ([done], [panicChan], the channel of time.After) or a
    channel that is only ever closed ([ctx.Done()], [s.stop]).  For the
    receiver such a channel is the instant from which a receive can
    proceed together with the value it then yields; [None] is a channel
    on which a receive never proceeds. *)
Definition chan (A : Type) : Type := option (Z * A).

Definition never {A : Type} : chan A := None.
Definition from {A : Type} (t : Z) (a : A) : chan A := Some (t, a).

(** time.After(d), called at instant [t]: a timer of a duration that is
    not positive fires at once. *)
Definition After (t d : Z) : chan unit := from (t + Z.max 0 d) tt.

(** Can a receive on [c] proceed at instant [t]. *)
Definition ready {A : Type} (c : chan A) (t : Z) : bool :=
  match c with
  | Some (u, _) => u <=? t
  | None => false
  end.

(** ** select

    A case of a [select]: a receive together with the body that runs,
    at the instant the select fires, on the value received. *)
Definition case (R : Type) : Type := option (Z * (Z -> R)).

Definition recv {A R : Type} (c : chan A) (body : A -> Z -> R) : case R :=
  match c with
  | Some (t, a) => Some (t, body a)
  | None => None
  end.

(** The first instant at which some case can proceed. *)
Fixpoint earliest {R : Type} (cases : list (case R)) : option Z :=
  match cases with
  | [] => None
  | None :: rest => earliest rest
  | Some (t, _) :: rest =>
      match earliest rest with
      | Some u => Some (Z.min t u)
      | None => Some t
      end
  end.

(** The bodies of the cases that can proceed at instant [t], in the order
    of the source. *)
Fixpoint runnable {R : Type} (t : Z) (cases : list (case R)) : list (Z -> R) :=
  match cases with
  | [] => []
  | None :: rest => runnable t rest
  | Some (u, body) :: rest =>
      if u <=? t then body :: runnable t rest else runnable t rest
  end.

(** A [select] without a default case, entered at instant [now]: it
    blocks until a case can proceed, then runs one of the cases that can;
    [pick] is the scheduler's choice.  [None]: it blocks for ever. *)
Definition select {R : Type} (pick : nat) (now : Z) (cases : list (case R))
  : option R :=
  match earliest cases with
  | None => None
  | Some t =>
      let fire := Z.max now t in
      let ready := runnable fire cases in
      match nth_error ready (pick mod List.length ready)%nat with
      | Some body => Some (body fire)
      | None => None
      end
  end.

(** ** context *)

(** A context made by context.WithTimeout(context.Background(), d): its
    deadline, and the instant of the first cancel() that found it still
    open. *)
Record Context : Type := mkContext {
  deadline : Z;
  cancelled : option Z
}.

(** context.WithTimeout(context.Background(), d), called at instant [t].
    When [d] is not positive the deadline has passed already and the
    context is born expired. *)
Definition WithTimeout (t d : Z) : Context :=
  {| deadline := t + d; cancelled := None |}.

(** cancel(), called at instant [t]: nothing happens to a context that is
    done already. *)
Definition cancel (ctx : Context) (t : Z) : Context :=
  match cancelled ctx with
  | Some _ => ctx
  | None =>
      if deadline ctx <=? t then ctx
      else {| deadline := deadline ctx; cancelled := Some t |}
  end.

(** ctx.Done(): closed by the deadline or by cancel(), whichever is
    first. *)
Definition Done (ctx : Context) : chan unit :=
  match cancelled ctx with
  | Some c => from (Z.min c (deadline ctx)) tt
  | None => from (deadline ctx) tt
  end.

(** ctx.Err(), read at instant [t]. *)
Definition Err (ctx : Context) (t : Z) : error :=
  match cancelled ctx with
  | Some c =>
      if (c <? deadline ctx) && (c <=? t) then Some Canceled
      else if deadline ctx <=? t then Some DeadlineExceeded
      else nil
  | None => if deadline ctx <=? t then Some DeadlineExceeded else nil
  end.

End Go.

Import Go.

(** ** Jobs, messages and handlers *)

(** queue.Job: the payload and the declared timeout (a time.Duration). *)
Record Job : Type := mkJob {
  Timeout : Z;
  Payload : list Byte.byte
}.

(** queue.QueuedMessage is an interface; its values here are jobs or plain
    messages that only have Bytes(). *)
Inductive QueuedMessage : Type :=
| AJob (j : Job)
| AMessage (bytes : list Byte.byte).

Definition Bytes (m : QueuedMessage) : list Byte.byte :=
  match m with
  | AJob j => Payload j
  | AMessage b => b
  end.

(** How a call of the handler ends: it returns an error value or it
    panics. *)
Inductive completion : Type :=
| Returns (e : error)
| Panics (p : any).

(** A run of the handler: it completes [d] ticks of the clock after it
    was started, or it never does. *)
Inductive run : Type :=
| Completes (d : N) (c : completion)
| Hangs.

(** The handler, func(context.Context, queue.QueuedMessage) error: what it
    does is a function of the context it is given, cancellation included,
    and of the message. *)
Definition RunFunc : Type := Context -> QueuedMessage -> run.

Definition completed_by (start t : Z) (r : run) : bool :=
  match r with
  | Completes d _ => start + Z.of_N d <=? t
  | Hangs => false
  end.

(** The run of a handler started at [start] on [ctx], when cancel() at
    instant [t] turns [ctx] into [ctx']: a run that was complete by [t]
    never saw the cancellation. *)
Definition resumed (f : RunFunc) (start t : Z) (ctx ctx' : Context)
  (m : QueuedMessage) : run :=
  if completed_by start t (f ctx m) then f ctx m else f ctx' m.

(** ** The worker *)

(** The transport client: the supervisor only ever calls Close() on it. *)
Record Client : Type := mkClient {
  closes : nat
}.

Definition Close (c : Client) : Client := {| closes := S (closes c) |}.

(** The fields of Worker, but for the logger, which only NewWorker uses. *)
Record Worker : Type := mkWorker {
  rdb : Client;
  addr : string;
  db : Z;
  connectionString : string;
  password : string;
  channel : string;
  channelSize : Z;
  stopOnce : bool;               (* sync.Once: has Do run already *)
  stop : bool;                   (* chan struct{}: is it closed *)
  runFunc : RunFunc;
  stopFlag : Z;                  (* int32 *)
  startFlag : Z                  (* int32 *)
}.

(** Option is a func on a pointer to the Worker.  The fields of Worker are
    not exported, so the values of Option are made by the constructors
    below only: an option is the constructor that made it, and [apply] is
    the call of the closure it stands for.  (WithLogger is left out with
    the logger.) *)
Inductive Option : Type :=
| WithAddr (a : string)
| WithDB (d : Z)
| WithChannelSize (size : Z)
| WithPassword (passwd : string)
| WithConnectionString (cs : string)
| WithChannel (ch : string)
| WithRunFunc (fn : RunFunc).

Definition apply (opt : Option) (w : Worker) : Worker :=
  match opt with
  | WithAddr a =>
      mkWorker (rdb w) a (db w) (connectionString w) (password w) (channel w)
        (channelSize w) (stopOnce w) (stop w) (runFunc w) (stopFlag w) (startFlag w)
  | WithDB d =>
      mkWorker (rdb w) (addr w) d (connectionString w) (password w) (channel w)
        (channelSize w) (stopOnce w) (stop w) (runFunc w) (stopFlag w) (startFlag w)
  | WithChannelSize size =>
      mkWorker (rdb w) (addr w) (db w) (connectionString w) (password w) (channel w)
        size (stopOnce w) (stop w) (runFunc w) (stopFlag w) (startFlag w)
  | WithPassword passwd =>
      mkWorker (rdb w) (addr w) (db w) (connectionString w) passwd (channel w)
        (channelSize w) (stopOnce w) (stop w) (runFunc w) (stopFlag w) (startFlag w)
  | WithConnectionString cs =>
      mkWorker (rdb w) (addr w) (db w) cs (password w) (channel w)
        (channelSize w) (stopOnce w) (stop w) (runFunc w) (stopFlag w) (startFlag w)
  | WithChannel ch =>
      mkWorker (rdb w) (addr w) (db w) (connectionString w) (password w) ch
        (channelSize w) (stopOnce w) (stop w) (runFunc w) (stopFlag w) (startFlag w)
  | WithRunFunc fn =>
      mkWorker (rdb w) (addr w) (db w) (connectionString w) (password w) (channel w)
        (channelSize w) (stopOnce w) (stop w) fn (stopFlag w) (startFlag w)
  end.

Definition set_rdb (c : Client) (w : Worker) : Worker :=
  mkWorker c (addr w) (db w) (connectionString w) (password w) (channel w)
    (channelSize w) (stopOnce w) (stop w) (runFunc w) (stopFlag w) (startFlag w).

(** NewWorker, on the path where the server answers the Ping (on the other
    one logger.Fatal ends the process): the defaults, then the options in
    order, then the client that was dialled. *)
Definition NewWorker (opts : list Option) : Worker :=
  let w :=
    {| rdb := {| closes := 0 |};
       addr := "127.0.0.1:6379";
       db := 0;
       connectionString := "";
       password := "";
       channel := "queue";
       channelSize := 0;
       stopOnce := false;
       stop := false;
       runFunc := fun _ _ => Completes 0 (Returns nil);
       stopFlag := 0;
       startFlag := 0 |} in
  let w := fold_left (fun w opt => apply opt w) opts w in
  set_rdb {| closes := 0 |} w.

(** BeforeRun and AfterRun: hooks that do nothing. *)
Definition BeforeRun (s : Worker) : error := nil.
Definition AfterRun (s : Worker) : error := nil.

(** Capacity and Usage. *)
Definition Capacity (s : Worker) : Z := 0.
Definition Usage (s : Worker) : Z := 0.

(** ** Shutdown *)

(** What an operation does to the world outside the fields of the worker,
    in order. *)
Inductive effect : Type :=
| RdbClose                       (* s.rdb.Close() *)
| CloseStop.                     (* close(s.stop) *)

Definition effect_eq_dec (a b : effect) : {a = b} + {a <> b}.
Proof. decide equality. Defined.

(** atomic.CompareAndSwapInt32(&v, old, new): the new content and whether
    the swap took place. *)
Definition CompareAndSwapInt32 (v old new : Z) : Z * bool :=
  if v =? old then (new, true) else (v, false).

(** atomic.LoadInt32. *)
Definition LoadInt32 (v : Z) : Z := v.

Definition set_stopFlag (v : Z) (w : Worker) : Worker :=
  mkWorker (rdb w) (addr w) (db w) (connectionString w) (password w) (channel w)
    (channelSize w) (stopOnce w) (stop w) (runFunc w) v (startFlag w).

Definition set_stopOnce (b : bool) (w : Worker) : Worker :=
  mkWorker (rdb w) (addr w) (db w) (connectionString w) (password w) (channel w)
    (channelSize w) b (stop w) (runFunc w) (stopFlag w) (startFlag w).

Definition set_stop (b : bool) (w : Worker) : Worker :=
  mkWorker (rdb w) (addr w) (db w) (connectionString w) (password w) (channel w)
    (channelSize w) (stopOnce w) b (runFunc w) (stopFlag w) (startFlag w).

(** The result of a method: how the call ends, the worker it leaves and
    the effects it had. *)
Record result (A : Type) : Type := mkResult {
  ends : outcome A;
  leaves : Worker;
  effects : list effect
}.
Arguments mkResult {A} ends leaves effects.
Arguments ends {A} r.
Arguments leaves {A} r.
Arguments effects {A} r.

(** The function handed to stopOnce.Do: close the client (its error is
    dropped), then close the stop channel; closing a closed channel
    panics. *)
Definition teardown (s : Worker) : result unit :=
  let s := set_rdb (Close (rdb s)) s in
  if stop s
  then mkResult (Panicked (RuntimeError "close of closed channel")) s [RdbClose]
  else mkResult (Returned tt) (set_stop true s) [RdbClose; CloseStop].

(** sync.Once.Do(f): f runs on the first call only; Do counts as done even
    when f panics. *)
Definition Do (f : Worker -> result unit) (s : Worker) : result unit :=
  if stopOnce s then mkResult (Returned tt) s []
  else f (set_stopOnce true s).

Definition Shutdown (s : Worker) : result error :=
  let (flag, swapped) := CompareAndSwapInt32 (stopFlag s) 0 1 in
  let s := set_stopFlag flag s in
  if negb swapped then mkResult (Returned (Some ErrQueueShutdown)) s []
  else
    let r := Do teardown s in
    match ends r with
    | Panicked p => mkResult (Panicked p) (leaves r) (effects r)
    | Returned _ => mkResult (Returned nil) (leaves r) (effects r)
    end.

(** ** Queue and Run *)

Definition Queue (s : Worker) (job : QueuedMessage) : result error :=
  if LoadInt32 (stopFlag s) =? 1
  then mkResult (Returned (Some ErrQueueShutdown)) s []
  else mkResult (Returned nil) s [].

(** Run: a select with a default case does not block; it takes the stop
    case exactly when the channel is closed at that moment. *)
Definition Run (s : Worker) : result error :=
  if stop s
  then mkResult (Returned (Some ErrQueueShutdown)) s []
  else mkResult (Returned nil) s [].

(** ** handle *)

(** The world around one call of [handle]: the instant of the call, the
    instant at which a concurrent Shutdown closes the stop channel (if one
    ever does), and the scheduler's choices at the two selects. *)
Record Env : Type := mkEnv {
  now : Z;
  shutdown_at : option Z;
  pick1 : nat;
  pick2 : nat
}.

(** s.stop as [handle] sees it: closed already when the call begins, or
    closed later by a concurrent Shutdown. *)
Definition stop_chan (s : Worker) (env : Env) : chan unit :=
  if stop s then from (now env) tt
  else
    match shutdown_at env with
    | Some t => from t tt
    | None => never
    end.

(** recover() in the deferred function of the goroutine: the value of the
    panic under way, nil when there is none. *)
Definition recover (c : completion) : option any :=
  match c with
  | Panics p => Some p
  | Returns _ => None
  end.

Record channels : Type := mkChannels {
  done : chan error;
  panicChan : chan any
}.

(** The goroutine that runs the job, started at [start]: a handler that
    returns has its value sent on [done]; one that panics skips that send
    and its deferred function sends the recovered value on [panicChan].
    Both buffers have room for the one value, so neither send blocks. *)
Definition goroutine (start : Z) (r : run) : channels :=
  match r with
  | Hangs => {| done := never; panicChan := never |}
  | Completes d c =>
      let t := start + Z.of_N d in
      {| done := match c with
                 | Returns e => from t e
                 | Panics _ => never
                 end;
         panicChan := match recover c with
                      | Some p => from t p
                      | None => never
                      end |}
  end.

Inductive chan_name : Type :=
| PanicChan | CtxDone | Stop | DoneChan | TimeAfter.

(** What [handle] itself does, in order. *)
Inductive event : Type :=
| Recv (c : chan_name) (t : Z)       (* the case taken by a select *)
| Cancel (t : Z)                     (* cancel() *)
| Timer (t : Z) (d : Z).             (* time.After(d) *)

Record handled : Type := mkHandled {
  outcome_of : outcome error;        (* the error returned or the panic raised *)
  returned_at : Z;                   (* the instant handle is left *)
  ctx_end : Context;                 (* the job's context from then on *)
  trace : list event
}.

(** Leaving [handle] at instant [t]: the deferred cancel() runs. *)
Definition leave (o : outcome error) (ctx : Context) (tr : list event) (t : Z)
  : handled :=
  {| outcome_of := o;
     returned_at := t;
     ctx_end := cancel ctx t;
     trace := tr ++ [Cancel t] |}.

(** The body of [case <-s.stop] in [handle], entered at instant [t]:
    cancel the job, then wait for it for what is left of its timeout. *)
Definition on_stop (s : Worker) (job : Job) (env : Env)
  (startTime : Z) (ctx : Context) (t : Z) : option handled :=
  let ctx' := cancel ctx t in
  (* from here on the handler runs on the cancelled context *)
  let ch := goroutine startTime (resumed (runFunc s) startTime t ctx ctx' (AJob job)) in
  let leftTime := wrap64 (Timeout job - Since startTime t) in
  let tr := [Recv Stop t; Cancel t; Timer t leftTime] in
  select (pick2 env) t
    [ recv (After t leftTime) (fun _ u =>
        leave (Returned (Some DeadlineExceeded)) ctx' (tr ++ [Recv TimeAfter u]) u);
      recv (done ch) (fun err u =>
        leave (Returned err) ctx' (tr ++ [Recv DoneChan u]) u);
      recv (panicChan ch) (fun p u =>
        leave (Panicked p) ctx' (tr ++ [Recv PanicChan u]) u) ].

Definition handle (s : Worker) (job : Job) (env : Env) : option handled :=
  let startTime := now env in
  let ctx := WithTimeout startTime (Timeout job) in
  let ch := goroutine startTime (runFunc s ctx (AJob job)) in
  match
    select (pick1 env) startTime
      [ recv (panicChan ch) (fun p t =>
          Some (leave (Panicked p) ctx [Recv PanicChan t] t));
        recv (Done ctx) (fun _ t =>
          Some (leave (Returned (Err ctx t)) ctx [Recv CtxDone t] t));
        recv (stop_chan s env) (fun _ t =>
          on_stop s job env startTime ctx t);
        recv (done ch) (fun err t =>
          Some (leave (Returned err) ctx [Recv DoneChan t] t)) ]
  with
  | Some r => r
  | None => None
  end.

(** ** Sequences of operations on one worker *)

Inductive Op : Type :=
| OpBeforeRun
| OpAfterRun
| OpQueue (m : QueuedMessage)
| OpRun
| OpShutdown
| OpHandle (job : Job) (env : Env)
| OpCapacity
| OpUsage.

(** One operation: the worker it leaves and the effects it had.  [handle],
    the hooks, Capacity and Usage only read the worker. *)
Definition step (s : Worker) (op : Op) : Worker * list effect :=
  match op with
  | OpBeforeRun | OpAfterRun | OpCapacity | OpUsage | OpHandle _ _ => (s, [])
  | OpQueue m => (leaves (Queue s m), effects (Queue s m))
  | OpRun => (leaves (Run s), effects (Run s))
  | OpShutdown => (leaves (Shutdown s), effects (Shutdown s))
  end.

Fixpoint exec (s : Worker) (ops : list Op) : Worker * list effect :=
  match ops with
  | [] => (s, [])
  | op :: rest =>
      let (s1, e1) := step s op in
      let (s2, e2) := exec s1 rest in
      (s2, e1 ++ e2)
  end.

(** The state of the stop machinery: before any Shutdown, and after the
    first one. *)
Definition active (s : Worker) : Prop :=
  stopFlag s = 0 /\ stopOnce s = false /\ stop s = false /\ closes (rdb s) = 0%nat.

Definition shut_down (s : Worker) : Prop :=
  stopFlag s = 1 /\ stopOnce s = true /\ stop s = true /\ closes (rdb s) = 1%nat.

Definition is_shutdown (op : Op) : bool :=
  match op with
  | OpShutdown => true
  | _ => false
  end.

(** ** Sample workers, jobs and worlds *)

(** A handler that sleeps 500 ticks and succeeds, as in the tests. *)
Definition slow_handler : RunFunc := fun _ _ => Completes 500 (Returns nil).

(** A handler, started at instant 0, that watches ctx.Done() and returns
    ctx.Err() 5 ticks after a cancel(); it never returns while its context
    is open. *)
Definition polite_handler : RunFunc := fun ctx _ =>
  match cancelled ctx with
  | Some c => Completes (Z.to_N c + 5) (Returns (Some Canceled))
  | None => Hangs
  end.

(** A handler that ignores its context and never returns. *)
Definition deaf_handler : RunFunc := fun _ _ => Hangs.



(** The handler of TestJobReachTimeout and TestCancelJobAfterShutdown,
    started at instant 0: every 50 ticks it looks at ctx.Done() and returns
    nil once it finds it closed. *)
Definition polling_handler : RunFunc := fun ctx _ =>
  match Done ctx with
  | Some (t, _) => Completes (Z.to_N (50 * ((t + 49) / 50))) (Returns nil)
  | None => Hangs
  end.

Definition job_1000 : Job := {| Timeout := 1000; Payload := [] |}.
Definition job_20 : Job := {| Timeout := 20; Payload := [] |}.
Definition job_3000 : Job := {| Timeout := 3000; Payload := [] |}.

(** No shutdown; the scheduler picks the first case that can proceed. *)
Definition quiet : Env :=
  {| now := 0; shutdown_at := None; pick1 := 0; pick2 := 0 |}.

(** A Shutdown arrives 100 ticks into the job. *)
Definition shutdown_100 : Env :=
  {| now := 0; shutdown_at := Some 100; pick1 := 0; pick2 := 0 |}.

(** A Shutdown arrives 2000 ticks into the job. *)
Definition shutdown_2000 : Env :=
  {| now := 0; shutdown_at := Some 2000; pick1 := 0; pick2 := 0 |}.

(** A Shutdown arrives at the very instant the slow handler returns, and
    the scheduler picks the second case that can proceed. *)
Definition tie_500 : Env :=
  {| now := 0; shutdown_at := Some 500; pick1 := 1; pick2 := 0 |}.


Definition worker_of (fn : RunFunc) : Worker := NewWorker [WithRunFunc fn].


(** ** The configuration NewWorker reads *)

(** What NewWorker hands to redis.NewClient: the options parsed from the
    connection string, the options built from the address, or the nil
    pointer it declared when both strings are empty. *)
Inductive redis_options : Type :=
| ParseURL (url : string)                      (* redis.ParseURL(url) *)
| Options (Addr Password : string) (DB : Z)    (* &redis.Options{...} *)
| NilOptions.

Definition options_for (w : Worker) : redis_options :=
  if negb (connectionString w =? "")%string then ParseURL (connectionString w)
  else if negb (addr w =? "")%string then Options (addr w) (password w) (db w)
  else NilOptions.

(** The value an option gives to each field, if it sets that field. *)
Definition addr_of (o : Option) : option string :=
  match o with WithAddr a => Some a | _ => None end.
Definition db_of (o : Option) : option Z :=
  match o with WithDB d => Some d | _ => None end.
Definition channelSize_of (o : Option) : option Z :=
  match o with WithChannelSize n => Some n | _ => None end.
Definition password_of (o : Option) : option string :=
  match o with WithPassword p => Some p | _ => None end.
Definition connectionString_of (o : Option) : option string :=
  match o with WithConnectionString c => Some c | _ => None end.
Definition channel_of (o : Option) : option string :=
  match o with WithChannel c => Some c | _ => None end.
Definition runFunc_of (o : Option) : option RunFunc :=
  match o with WithRunFunc f => Some f | _ => None end.

(** The value set by the last option of a list that sets one, [default]
    when none does. *)
Definition last_set {A : Type} (get : Option -> option A) (opts : list Option)
  (default : A) : A :=
  fold_left (fun acc o => match get o with Some a => a | None => acc end)
    opts default.

(** ** Shutdown, one atomic step at a time

    Several goroutines may call Shutdown at once.  A call is then three
    atomic steps on the shared worker: the compare-and-swap of the flag;
    the entry into stopOnce.Do, which runs rdb.Close(); and close(s.stop),
    after which Do marks itself done. *)

(** Where a caller of Shutdown stands. *)
Inductive pc : Type :=
| AtCAS                           (* about to CompareAndSwapInt32 *)
| AtOnce                          (* the swap took place: about to call Do *)
| AtCloseStop                     (* in Do, past rdb.Close(): about to close(s.stop) *)
| Finished (o : outcome error).   (* the call is over *)

(** The caller is running the function handed to Do. *)
Definition inside_once (p : pc) : bool :=
  match p with
  | AtCloseStop => true
  | _ => false
  end.

(** One step of a caller at [p] on the shared worker [s]; [busy]: some
    other caller is running the function handed to Do, whose mutex makes a
    new caller of Do wait. *)
Definition shutdown_step (busy : bool) (s : Worker) (p : pc)
  : Worker * pc * list effect :=
  match p with
  | AtCAS =>
      let (flag, swapped) := CompareAndSwapInt32 (stopFlag s) 0 1 in
      let s := set_stopFlag flag s in
      if negb swapped then (s, Finished (Returned (Some ErrQueueShutdown)), [])
      else (s, AtOnce, [])
  | AtOnce =>
      if stopOnce s then (s, Finished (Returned nil), [])
      else if busy then (s, AtOnce, [])
      else (set_rdb (Close (rdb s)) s, AtCloseStop, [RdbClose])
  | AtCloseStop =>
      if stop s
      then (set_stopOnce true s,
            Finished (Panicked (RuntimeError "close of closed channel")), [])
      else (set_stopOnce true (set_stop true s), Finished (Returned nil), [CloseStop])
  | Finished o => (s, Finished o, [])
  end.

Fixpoint update {A : Type} (i : nat) (x : A) (l : list A) : list A :=
  match l, i with
  | [], _ => []
  | _ :: rest, O => x :: rest
  | a :: rest, S j => a :: update j x rest
  end.

(** The shared worker, the callers of Shutdown and the effects so far. *)
Record system : Type := mkSystem {
  shared : Worker;
  callers : list pc;
  performed : list effect
}.

(** Caller [i] takes its next step. *)
Definition caller_step (i : nat) (sys : system) : system :=
  match nth_error (callers sys) i with
  | None => sys
  | Some p =>
      let '(s, p', e) :=
        shutdown_step (existsb inside_once (callers sys)) (shared sys) p in
      {| shared := s;
         callers := update i p' (callers sys);
         performed := performed sys ++ e |}
  end.

(** The callers step in the order of [schedule]. *)
Definition interleave (schedule : list nat) (sys : system) : system :=
  fold_left (fun sys i => caller_step i sys) schedule sys.

(** [n] goroutines are about to call Shutdown on [s]. *)
Definition start_system (s : Worker) (n : nat) : system :=
  {| shared := s; callers := repeat AtCAS n; performed := [] |}.

Definition returned_nil (p : pc) : bool :=
  match p with
  | Finished (Returned None) => true
  | _ => false
  end.

Definition finished (p : pc) : bool :=
  match p with
  | Finished _ => true
  | _ => false
  end.

(** The steps a caller has left at most. *)
Definition steps_left (p : pc) : nat :=
  match p with
  | AtCAS => 3
  | AtOnce => 2
  | AtCloseStop => 1
  | Finished _ => 0
  end.

(** A caller that lost the compare-and-swap, or has not tried it yet. *)
Definition loser (p : pc) : Prop :=
  p = AtCAS \/ p = Finished (Returned (Some ErrQueueShutdown)).

(** The caller that won the compare-and-swap, with the worker and the
    effects as that caller's progress leaves them. *)
Definition winner (p : pc) (s : Worker) (e : list effect) : Prop :=
  stopFlag s = 1 /\
  ((p = AtOnce /\ stopOnce s = false /\ stop s = false /\
    closes (rdb s) = 0%nat /\ e = []) \/
   (p = AtCloseStop /\ stopOnce s = false /\ stop s = false /\
    closes (rdb s) = 1%nat /\ e = [RdbClose]) \/
   (p = Finished (Returned nil) /\ stopOnce s = true /\ stop s = true /\
    closes (rdb s) = 1%nat /\ e = [RdbClose; CloseStop])).

(** The states the callers can bring the system to. *)
Definition safe (sys : system) : Prop :=
  (active (shared sys) /\ Forall (eq AtCAS) (callers sys) /\ performed sys = []) \/
  (exists l1 p l2,
     callers sys = l1 ++ p :: l2 /\ Forall loser l1 /\ Forall loser l2 /\
     winner p (shared sys) (performed sys)).

(** ** Tactics for a [select] on explicit cases *)

(* Split on every comparison of instants in the goal. *)
Ltac leb_cases :=
  repeat match goal with
  | |- context [?a <=? ?b] => destruct (Z.leb_spec a b); try lia
  | |- context [?a <? ?b] => destruct (Z.ltb_spec a b); try lia
  end.

(* Split on the scheduler's choice among the cases that can proceed. *)
Ltac pick_cases :=
  cbn [List.length];
  match goal with
  | |- context [(?p mod 1)%nat] => rewrite (Nat.mod_1_r p)
  | |- context [(?p mod ?n)%nat] =>
      let H := fresh "Hpick" in
      pose proof (Nat.mod_upper_bound p n ltac:(discriminate)) as H;
      revert H; generalize (p mod n)%nat; cbn [List.length];
      intros [|[|[|[|?]]]] H; try lia
  end.

(* Run the racing select of [handle] on cases that are explicit. *)
Ltac race :=
  unfold handle;
  cbn [goroutine recover done panicChan];
  unfold select, WithTimeout, Done, from, never;
  cbn [recv earliest runnable cancelled deadline];
  match goal with
  | |- context [Z.max (now ?env) ?m] =>
      let fire := fresh "fire" in
      let Hfire := fresh "Hfire" in
      remember (Z.max (now env) m) as fire eqn:Hfire
  end;
  leb_cases; pick_cases; cbn [nth_error].

(** * Properties *)

(** ** The lifecycle gate *)

Lemma NewWorker_fold_active (opts : list Option) (w : Worker) :
  active w -> active (fold_left (fun w opt => apply opt w) opts w).
Proof.
  revert w; induction opts as [|opt opts IH]; intros w Hw; [exact Hw|].
  cbn [fold_left]. apply IH.
  destruct opt; exact Hw.
Qed.

Lemma NewWorker_active (opts : list Option) : active (NewWorker opts).
Proof.
  unfold NewWorker.
  match goal with
  | |- active (set_rdb _ (fold_left _ _ ?w0)) =>
      pose proof (NewWorker_fold_active opts w0) as H
  end.
  destruct H as (Hf & Ho & Hs & _).
  - repeat split.
  - repeat split; assumption.
Qed.

Lemma Shutdown_active (s : Worker) :
  active s ->
  ends (Shutdown s) = Returned nil /\
  effects (Shutdown s) = [RdbClose; CloseStop] /\
  shut_down (leaves (Shutdown s)).
Proof.
  intros (Hf & Ho & Hs & Hc).
  unfold Shutdown, CompareAndSwapInt32, Do, teardown.
  rewrite Hf; cbn. rewrite Ho; cbn. rewrite Hs; cbn.
  repeat split. cbn. now rewrite Hc.
Qed.

Lemma Shutdown_shut_down (s : Worker) :
  shut_down s ->
  ends (Shutdown s) = Returned (Some ErrQueueShutdown) /\
  effects (Shutdown s) = [] /\
  leaves (Shutdown s) = s.
Proof.
  intros (Hf & Ho & Hs & Hc).
  unfold Shutdown, CompareAndSwapInt32.
  rewrite Hf; cbn. repeat split.
  destruct s; cbn in *; now subst.
Qed.

Lemma Queue_leaves (s : Worker) (m : QueuedMessage) :
  leaves (Queue s m) = s /\ effects (Queue s m) = [].
Proof. unfold Queue; destruct (_ =? _); split; reflexivity. Qed.

Lemma Run_leaves (s : Worker) :
  leaves (Run s) = s /\ effects (Run s) = [].
Proof. unfold Run; destruct (stop s); split; reflexivity. Qed.

(** Every operation keeps the worker in one of the two states, moves it
    from the first to the second at most, and closes the stop channel only
    on that move. *)
Lemma step_states (s : Worker) (op : Op) :
  (active s ->
     if is_shutdown op
     then shut_down (fst (step s op)) /\ snd (step s op) = [RdbClose; CloseStop]
     else fst (step s op) = s /\ snd (step s op) = []) /\
  (shut_down s -> fst (step s op) = s /\ snd (step s op) = []).
Proof.
  destruct op; cbn [step is_shutdown fst snd];
    try (split; intros _; split; reflexivity);
    try (split; intros _; first [apply Queue_leaves | apply Run_leaves]).
  split; intros H.
  - destruct (Shutdown_active s H) as (_ & He & Hl); now split.
  - destruct (Shutdown_shut_down s H) as (_ & He & Hl); now split.
Qed.

Lemma exec_app (s : Worker) (ops1 ops2 : list Op) :
  exec s (ops1 ++ ops2) =
  (fst (exec (fst (exec s ops1)) ops2),
   snd (exec s ops1) ++ snd (exec (fst (exec s ops1)) ops2)).
Proof.
  revert s; induction ops1 as [|op ops1 IH]; intros s; cbn [app exec].
  - cbn. now destruct (exec s ops2).
  - destruct (step s op) as [s1 e1]. rewrite IH.
    destruct (exec s1 ops1) as [s2 e2]; cbn [fst snd].
    now rewrite app_assoc.
Qed.

Lemma exec_shut_down (s : Worker) (ops : list Op) :
  shut_down s -> fst (exec s ops) = s /\ snd (exec s ops) = [].
Proof.
  revert s; induction ops as [|op ops IH]; intros s H; cbn [exec].
  - now split.
  - destruct (step_states s op) as (_ & Hs). destruct (Hs H) as (H1 & H2).
    destruct (step s op) as [s1 e1]; cbn [fst snd] in *; subst.
    destruct (IH s H) as (H3 & H4).
    destruct (exec s ops) as [s2 e2]; cbn [fst snd] in *; now subst.
Qed.

Lemma exec_active (s : Worker) (ops : list Op) :
  active s ->
  if existsb is_shutdown ops
  then shut_down (fst (exec s ops)) /\ snd (exec s ops) = [RdbClose; CloseStop]
  else fst (exec s ops) = s /\ snd (exec s ops) = [].
Proof.
  revert s; induction ops as [|op ops IH]; intros s H; cbn [exec existsb].
  - now split.
  - destruct (step_states s op) as (Ha & _). specialize (Ha H).
    destruct (step s op) as [s1 e1]; cbn [fst snd] in *.
    destruct (is_shutdown op); cbn [orb].
    + destruct Ha as (Hs1 & ->).
      destruct (exec_shut_down s1 ops Hs1) as (H3 & H4).
      destruct (exec s1 ops) as [s2 e2]; cbn [fst snd] in *; now subst.
    + destruct Ha as (-> & ->). specialize (IH s H).
      destruct (exec s ops) as [s2 e2]; cbn [fst snd app] in *. exact IH.
Qed.

(** C10: in every state of every worker, BeforeRun and AfterRun return nil
    and Capacity and Usage return the constant 0. *)
Theorem hooks_and_gauges_are_constant (s : Worker) :
  BeforeRun s = nil /\ AfterRun s = nil /\ Capacity s = 0 /\ Usage s = 0.
Proof. repeat split. Qed.

(** C4: Queue returns ErrQueueShutdown when the stop flag is set and nil
    otherwise; in both cases it leaves the worker as it found it and has no
    effect (it spawns nothing and changes nothing). *)
Theorem Queue_checks_flag_only (s : Worker) (m : QueuedMessage) :
  ends (Queue s m) =
    Returned (if stopFlag s =? 1 then Some ErrQueueShutdown else nil) /\
  leaves (Queue s m) = s /\
  effects (Queue s m) = [].
Proof.
  unfold Queue, LoadInt32. destruct (stopFlag s =? 1); repeat split.
Qed.

(** C2: on a worker made by NewWorker, whatever operations came before,
    the first Shutdown returns nil, having called rdb.Close() once and
    closed the stop channel; every later Shutdown returns ErrQueueShutdown,
    has no effect and leaves the worker untouched.  Over any sequence of
    operations the client is closed once if the sequence has a Shutdown,
    and never otherwise. *)
Theorem Shutdown_tears_down_once (opts : list Option) (ops : list Op) :
  let s := fst (exec (NewWorker opts) ops) in
  (if existsb is_shutdown ops
   then ends (Shutdown s) = Returned (Some ErrQueueShutdown) /\
        effects (Shutdown s) = [] /\
        leaves (Shutdown s) = s
   else ends (Shutdown s) = Returned nil /\
        effects (Shutdown s) = [RdbClose; CloseStop] /\
        stop (leaves (Shutdown s)) = true /\
        stopFlag (leaves (Shutdown s)) = 1) /\
  count_occ effect_eq_dec (snd (exec (NewWorker opts) ops)) RdbClose =
    (if existsb is_shutdown ops then 1%nat else 0%nat) /\
  closes (rdb s) = (if existsb is_shutdown ops then 1%nat else 0%nat) /\
  closes (rdb (leaves (Shutdown s))) = 1%nat.
Proof.
  intros s; subst s.
  pose proof (exec_active (NewWorker opts) ops (NewWorker_active opts)) as H.
  destruct (existsb is_shutdown ops).
  - destruct H as (Hs & He). rewrite He.
    destruct (Shutdown_shut_down _ Hs) as (H1 & H2 & H3).
    rewrite H3. destruct Hs as (_ & _ & _ & Hc).
    repeat split; assumption.
  - destruct H as (Hs & He). rewrite He, Hs.
    destruct (Shutdown_active _ (NewWorker_active opts)) as (H1 & H2 & H3).
    destruct H3 as (Hf & _ & Hst & Hc).
    destruct (NewWorker_active opts) as (_ & _ & _ & Hc0).
    repeat split; assumption.
Qed.

(** C8: over every sequence of operations on a worker made by NewWorker,
    the stop flag starts at 0, is only ever 0 or 1, stays 1 once it is 1,
    the stop channel stays closed once it is closed, and close(s.stop) is
    executed at most once. *)
Theorem stop_flag_is_monotonic (opts : list Option) (ops more : list Op) :
  let w := NewWorker opts in
  let s := fst (exec w ops) in
  let s' := fst (exec w (ops ++ more)) in
  stopFlag w = 0 /\
  (stopFlag s = 0 \/ stopFlag s = 1) /\
  (stopFlag s = 1 -> stopFlag s' = 1) /\
  (stop s = true -> stop s' = true) /\
  (count_occ effect_eq_dec (snd (exec w (ops ++ more))) CloseStop <= 1)%nat.
Proof.
  intros w s s'; subst w s s'.
  pose proof (NewWorker_active opts) as Hw.
  pose proof (exec_active _ ops Hw) as H.
  pose proof (exec_active _ (ops ++ more) Hw) as H'.
  rewrite exec_app in *. cbn [fst snd] in *.
  rewrite existsb_app in H'.
  split; [apply Hw|].
  destruct (existsb is_shutdown ops); cbn [orb] in H'.
  - destruct H as (Hs & He). destruct H' as (Hs' & He').
    rewrite He'. split; [right; apply Hs|].
    split; [intros _; apply Hs'|].
    split; [intros _; apply Hs'|]. cbn; lia.
  - destruct H as (Hs & He). rewrite Hs in *.
    destruct Hw as (Hf & _ & Hst & _).
    split; [left; exact Hf|].
    split; [intros; congruence|].
    split; [intros; congruence|].
    destruct (existsb is_shutdown more).
    + destruct H' as (_ & ->). cbn; lia.
    + destruct H' as (_ & ->). cbn; lia.
Qed.

(** ** Arithmetic of durations *)

Lemma wrap64_id (z : Z) : is_int64 z -> wrap64 z = z.
Proof.
  unfold is_int64, min_int64, max_int64, wrap64.
  change (2 ^ 63) with 9223372036854775808.
  change (2 ^ 64) with 18446744073709551616.
  intros H. rewrite Z.mod_small; lia.
Qed.

Lemma sat64_id (z : Z) : is_int64 z -> sat64 z = z.
Proof. unfold is_int64, sat64. lia. Qed.

(** The time left computed in the stop case neither saturates nor wraps
    around when the stop is taken no later than the expiry. *)
Lemma left_time (start t T : Z) :
  is_int64 T -> start <= t <= start + Z.max 0 T ->
  wrap64 (T - Since start t) = T - (t - start).
Proof.
  intros HT Ht. unfold Since.
  assert (Hs : is_int64 (t - start)).
  { unfold is_int64, min_int64, max_int64 in *.
    change (2 ^ 63) with 9223372036854775808 in *. lia. }
  rewrite (sat64_id _ Hs). apply wrap64_id.
  unfold is_int64, min_int64, max_int64 in *.
  change (2 ^ 63) with 9223372036854775808 in *. lia.
Qed.

(** ** The wait after a shutdown

    What [on_stop] does, whatever the handler and the scheduler do: it
    returns, within the time left, through the timer, [done] or
    [panicChan]. *)
Lemma on_stop_spec (s : Worker) (job : Job) (env : Env) (start : Z)
  (ctx : Context) (t : Z) :
  let left := wrap64 (Timeout job - Since start t) in
  let r2 := resumed (runFunc s) start t ctx (cancel ctx t) (AJob job) in
  let limit := t + Z.max 0 left in
  exists r c,
    on_stop s job env start ctx t = Some r /\
    ctx_end r = cancel (cancel ctx t) (returned_at r) /\
    t <= returned_at r <= limit /\
    trace r = [Recv Stop t; Cancel t; Timer t left;
               Recv c (returned_at r); Cancel (returned_at r)] /\
    match c with
    | TimeAfter =>
        outcome_of r = Returned (Some DeadlineExceeded) /\ returned_at r = limit
    | DoneChan =>
        exists d e, r2 = Completes d (Returns e) /\
          outcome_of r = Returned e /\ returned_at r = Z.max t (start + Z.of_N d)
    | PanicChan =>
        exists d p, r2 = Completes d (Panics p) /\
          outcome_of r = Panicked p /\ returned_at r = Z.max t (start + Z.of_N d)
    | _ => False
    end /\
    (completed_by start limit r2 = false -> c = TimeAfter) /\
    (forall d cpl, r2 = Completes d cpl -> Z.max t (start + Z.of_N d) < limit ->
       c = match cpl with Returns _ => DoneChan | Panics _ => PanicChan end).
Proof.
  intros left r2 limit.
  unfold on_stop. fold left. fold r2.
  destruct r2 as [d [e|p]|] eqn:E;
    cbn [goroutine recover done panicChan];
    unfold select, After, from, never; cbn [recv earliest runnable]; fold limit;
    leb_cases; pick_cases; cbn [nth_error];
    (eexists; eexists; split; [reflexivity|]);
    cbn [leave outcome_of returned_at ctx_end trace app];
    (split; [reflexivity|]); (split; [lia|]); (split; [reflexivity|]);
    cbn [completed_by].
  all: repeat split; try lia; try (do 2 eexists; repeat split; lia).
  all: intros d0 cpl [= <- <-] Hlt; first [reflexivity | lia].
Qed.

(** ** The racing wait *)

(** What the racing select of [handle] does, whatever the handler, the
    stop channel and the scheduler do: it fires between the call and the
    expiry of the timeout, on a case that can proceed then. *)
Lemma handle_spec (s : Worker) (job : Job) (env : Env) :
  let start := now env in
  let ctx := WithTimeout start (Timeout job) in
  let r1 := runFunc s ctx (AJob job) in
  exists r c t,
    handle s job env = Some r /\
    hd_error (trace r) = Some (Recv c t) /\
    start <= t <= start + Z.max 0 (Timeout job) /\
    match c with
    | PanicChan =>
        exists d p, r1 = Completes d (Panics p) /\ start + Z.of_N d <= t /\
          r = leave (Panicked p) ctx [Recv PanicChan t] t
    | CtxDone =>
        start + Timeout job <= t /\
        r = leave (Returned (Some DeadlineExceeded)) ctx [Recv CtxDone t] t
    | Stop =>
        ready (stop_chan s env) t = true /\
        on_stop s job env start ctx t = Some r
    | DoneChan =>
        exists d e, r1 = Completes d (Returns e) /\ start + Z.of_N d <= t /\
          r = leave (Returned e) ctx [Recv DoneChan t] t
    | TimeAfter => False
    end.
Proof.
  intros start ctx r1. subst start ctx r1.
  unfold handle, WithTimeout.
  destruct (runFunc s _ (AJob job)) as [d [e|p]|];
    destruct (stop_chan s env) as [[ts []]|]; race.
  all: try match goal with
       | |- context [on_stop ?s ?j ?e ?st ?c ?t] =>
           destruct (on_stop_spec s j e st c t)
             as (r & c' & Hr & _ & _ & Htr & _);
           exists r, Stop, t; rewrite Hr, Htr; cbn [hd_error ready];
           (split; [reflexivity|]); (split; [reflexivity|]);
           (split; [lia|]); split; [now leb_cases | reflexivity]
       end.
  all: eexists; eexists; eexists; (split; [reflexivity|]);
    cbn [leave trace app hd_error]; (split; [reflexivity|]);
    (split; [lia|]); cbn iota.
  all: first
    [ do 2 eexists; split; [reflexivity|]; split; [lia | reflexivity]
    | split; [lia|]; unfold Err; cbn [cancelled deadline]; leb_cases;
      reflexivity ].
Qed.

(** C6: when the handler returns [e] strictly before the deadline, and the
    stop channel cannot be received from by then, handle returns exactly
    [e] (nil or the handler's error, untouched) at the instant the handler
    returned, through the [done] case. *)
Theorem handle_returns_handler_value (s : Worker) (job : Job) (env : Env) (d : N) (e : error) :
  runFunc s (WithTimeout (now env) (Timeout job)) (AJob job) = Completes d (Returns e) ->
  Z.of_N d < Timeout job ->
  ready (stop_chan s env) (now env + Z.of_N d) = false ->
  exists r,
    handle s job env = Some r /\
    outcome_of r = Returned e /\
    returned_at r = now env + Z.of_N d /\
    trace r = [Recv DoneChan (now env + Z.of_N d); Cancel (now env + Z.of_N d)].
Proof.
  intros Hrun Hd Hstop.
  unfold handle. rewrite Hrun.
  destruct (stop_chan s env) as [[ts []]|]; cbn [ready] in Hstop;
    [apply Z.leb_gt in Hstop|]; race.
  all: assert (fire = now env + Z.of_N d) as -> by lia.
  all: eexists; split; [reflexivity|]; repeat split.
Qed.

(** C5: when the timeout elapses while the handler has neither returned
    nor panicked and the stop channel cannot be received from, handle
    returns context.DeadlineExceeded, which is the context's error, at the
    expiry, and the context is cancelled: its Done channel is closed and
    its error is set. *)
Theorem handle_times_out (s : Worker) (job : Job) (env : Env) :
  let ctx := WithTimeout (now env) (Timeout job) in
  let expiry := now env + Z.max 0 (Timeout job) in
  completed_by (now env) expiry (runFunc s ctx (AJob job)) = false ->
  ready (stop_chan s env) expiry = false ->
  exists r,
    handle s job env = Some r /\
    outcome_of r = Returned (Some DeadlineExceeded) /\
    outcome_of r = Returned (Err ctx (returned_at r)) /\
    returned_at r = expiry /\
    trace r = [Recv CtxDone expiry; Cancel expiry] /\
    ready (Done (ctx_end r)) (returned_at r) = true /\
    Err (ctx_end r) (returned_at r) = Some DeadlineExceeded.
Proof.
  intros ctx expiry Hrun Hstop. subst ctx.
  unfold handle.
  destruct (runFunc s _ (AJob job)) as [d [e|p]|]; cbn [completed_by] in Hrun;
    try apply Z.leb_gt in Hrun;
  (destruct (stop_chan s env) as [[ts []]|]; cbn [ready] in Hstop;
    [apply Z.leb_gt in Hstop|]); race.
  all: assert (fire = expiry) as -> by lia.
  all: eexists; split; [reflexivity|];
    cbn [leave outcome_of returned_at ctx_end trace app];
    unfold cancel; cbn [cancelled deadline]; leb_cases;
    unfold Err, Done, ready, from; cbn [cancelled deadline]; leb_cases;
    repeat split.
Qed.



(** When the stop channel is the first to be received from, strictly
    before the deadline and before the handler has completed, [handle] is
    the wait of [on_stop] on the cancelled context, bounded by what is left
    of the timeout. *)
Lemma stop_case (s : Worker) (job : Job) (env : Env) (ts : Z) :
  let start := now env in
  let ctx := WithTimeout start (Timeout job) in
  let t := Z.max start ts in
  let ctx' := {| deadline := start + Timeout job; cancelled := Some t |} in
  let r2 := runFunc s ctx' (AJob job) in
  let limit := start + Timeout job in
  is_int64 (Timeout job) ->
  stop_chan s env = from ts tt ->
  t < limit ->
  completed_by start t (runFunc s ctx (AJob job)) = false ->
  cancel ctx t = ctx' /\
  exists r c,
    handle s job env = Some r /\
    ctx_end r = ctx' /\
    t <= returned_at r <= limit /\
    trace r = [Recv Stop t; Cancel t; Timer t (Timeout job - (t - start));
               Recv c (returned_at r); Cancel (returned_at r)] /\
    match c with
    | TimeAfter =>
        outcome_of r = Returned (Some DeadlineExceeded) /\ returned_at r = limit
    | DoneChan =>
        exists d e, r2 = Completes d (Returns e) /\
          outcome_of r = Returned e /\ returned_at r = Z.max t (start + Z.of_N d)
    | PanicChan =>
        exists d p, r2 = Completes d (Panics p) /\
          outcome_of r = Panicked p /\ returned_at r = Z.max t (start + Z.of_N d)
    | _ => False
    end /\
    (completed_by start limit r2 = false -> c = TimeAfter) /\
    (forall d cpl, r2 = Completes d cpl -> Z.max t (start + Z.of_N d) < limit ->
       c = match cpl with Returns _ => DoneChan | Panics _ => PanicChan end).
Proof.
  intros start ctx t ctx' r2 limit HT Hstop Hlt Hrun.
  assert (Hc' : cancel ctx t = ctx').
  { unfold ctx', cancel, ctx, WithTimeout; cbn [cancelled deadline].
    fold limit. now leb_cases. }
  split; [exact Hc'|].
  pose proof (on_stop_spec s job env start ctx t) as Hs.
  cbv zeta in Hs. rewrite Hc' in Hs.
  rewrite left_time in Hs by (try assumption; lia).
  replace (t + Z.max 0 (Timeout job - (t - start))) with limit in Hs by lia.
  unfold resumed in Hs. rewrite Hrun in Hs. fold r2 in Hs.
  destruct Hs as (r & c & Hr & Hctx & Hat & Htr & Hout & Hafter & Hbefore).
  exists r, c.
  split; [|split; [|repeat split; assumption || lia]].
  - clear Hout Hafter Hbefore. clear r2.
    subst start ctx t limit. unfold WithTimeout in *. unfold handle, WithTimeout.
    rewrite Hstop.
    destruct (runFunc s _ (AJob job)) as [d [e|p]|]; cbn [completed_by] in Hrun;
      try apply Z.leb_gt in Hrun; race.
    all: assert (fire = Z.max (now env) ts) as -> by lia.
    all: exact Hr.
  - rewrite Hctx. unfold ctx', cancel; cbn [cancelled]. reflexivity.
Qed.

(** C1: when the stop channel is the first to be received from, strictly
    before the deadline and while the handler has neither returned nor
    panicked, handle takes the stop case at that instant [t]: it cancels
    the job's context at once, so that the context's error is Canceled from
    [t] on, and then waits on a timer of the timeout minus the time elapsed
    since handle began, which fires at the original deadline.  If the
    handler, on the cancelled context, has not completed by then, handle
    returns context.DeadlineExceeded at the deadline; if it completes
    earlier, handle ends the way the handler did, when it did.  In every
    case handle does return, no later than the timeout after it began. *)
Theorem handle_waits_remaining_budget (s : Worker) (job : Job) (env : Env) (ts : Z) :
  let start := now env in
  let ctx := WithTimeout start (Timeout job) in
  let t := Z.max start ts in
  let ctx' := cancel ctx t in
  is_int64 (Timeout job) ->
  stop_chan s env = from ts tt ->
  t < start + Timeout job ->
  completed_by start t (runFunc s ctx (AJob job)) = false ->
  exists r c,
    handle s job env = Some r /\
    trace r = [Recv Stop t; Cancel t; Timer t (Timeout job - (t - start));
               Recv c (returned_at r); Cancel (returned_at r)] /\
    ctx_end r = ctx' /\
    cancelled ctx' = Some t /\
    Err ctx' t = Some Canceled /\
    ready (Done ctx') t = true /\
    t + (Timeout job - (t - start)) = start + Timeout job /\
    t <= returned_at r /\
    returned_at r - start <= Timeout job /\
    (completed_by start (start + Timeout job) (runFunc s ctx' (AJob job)) = false ->
       c = TimeAfter /\
       outcome_of r = Returned (Some DeadlineExceeded) /\
       returned_at r = start + Timeout job) /\
    (forall d cpl,
       runFunc s ctx' (AJob job) = Completes d cpl ->
       Z.of_N d < Timeout job ->
       outcome_of r =
         match cpl with Returns e => Returned e | Panics p => Panicked p end /\
       returned_at r = Z.max t (start + Z.of_N d)).
Proof.
  intros start ctx t ctx' HT Hstop Hlt Hrun.
  destruct (stop_case s job env ts HT Hstop Hlt Hrun)
    as (Hc' & r & c & Hr & Hend & Hat & Htr & Hout & Hafter & Hbefore).
  fold start ctx t in Hc'. fold ctx' in Hc'.
  fold start t in Hend, Hat, Htr, Hout, Hafter, Hbefore.
  rewrite <- Hc' in Hend, Hout, Hafter, Hbefore.
  exists r, c. split; [exact Hr|]. split; [exact Htr|]. split; [exact Hend|].
  split; [rewrite Hc'; reflexivity|].
  split; [rewrite Hc'; unfold Err; cbn [cancelled deadline]; now leb_cases|].
  split; [rewrite Hc'; unfold Done, ready, from; cbn [cancelled deadline];
          now leb_cases|].
  split; [lia|]. split; [lia|]. split; [lia|]. split.
  - intros Hnever. assert (c = TimeAfter) as -> by auto.
    destruct Hout as (Ho & Hret). now repeat split.
  - intros d cpl Hcpl Hd.
    assert (Hmax : Z.max t (start + Z.of_N d) < start + Timeout job) by lia.
    pose proof (Hbefore d cpl Hcpl Hmax) as Hcase.
    rewrite Hcpl in Hout.
    destruct cpl as [e|p]; subst c;
      destruct Hout as (d0 & v & [= <- <-] & Ho & Hret); now split.
Qed.


(** X5: [handle] never blocks for ever: for a timeout that is not
    negative, whatever the handler does, even if it never returns, and
    whatever the stop channel and the scheduler do, handle returns or
    panics, no earlier than the instant it is called and no later than the
    timeout after it. *)
Lemma handle_terminates (s : Worker) (job : Job) (env : Env) :
  is_int64 (Timeout job) ->
  0 <= Timeout job ->
  exists r,
    handle s job env = Some r /\
    now env <= returned_at r <= now env + Timeout job.
Proof.
  intros HT Hpos.
  unfold handle, WithTimeout.
  destruct (runFunc s _ (AJob job)) as [d [e|p]|];
    destruct (stop_chan s env) as [[ts []]|]; race.
  all: try (eexists; split; [reflexivity|]; cbn [leave returned_at]; lia).
  all: match goal with
       | |- context [on_stop ?s ?j ?e ?st ?c ?t] =>
           pose proof (on_stop_spec s j e st c t) as Hs
       end;
    cbv zeta in Hs;
    rewrite left_time in Hs by (try assumption; lia);
    destruct Hs as (r & c & Hr & _ & Hat & _);
    exists r; (split; [exact Hr | lia]).
Qed.


(** C7, as stated, fails: the slow handler returns at instant 500, a Shutdown
    closes the stop channel at that same instant, both receives can
    proceed when the racing select fires, and the scheduler takes the
    [done] case: handle never enters the stop case. *)
Lemma race_can_take_done_over_stop :
  let s := worker_of slow_handler in
  let ctx := WithTimeout (now tie_500) (Timeout job_1000) in
  let ch := goroutine (now tie_500) (runFunc s ctx (AJob job_1000)) in
  ready (done ch) 500 = true /\
  ready (stop_chan s tie_500) 500 = true /\
  handle s job_1000 tie_500 =
    Some {| outcome_of := Returned nil;
            returned_at := 500;
            ctx_end := {| deadline := 1000; cancelled := Some 500 |};
            trace := [Recv DoneChan 500; Cancel 500] |} /\
  ~ (forall r, handle s job_1000 tie_500 = Some r -> In (Recv Stop 500) (trace r)).
Proof.
  cbv zeta. split; [reflexivity|]. split; [reflexivity|].
  assert (H : handle (worker_of slow_handler) job_1000 tie_500 =
    Some {| outcome_of := Returned nil;
            returned_at := 500;
            ctx_end := {| deadline := 1000; cancelled := Some 500 |};
            trace := [Recv DoneChan 500; Cancel 500] |}) by reflexivity.
  split; [exact H|].
  intros Hall. specialize (Hall _ H). cbn in Hall.
  destruct Hall as [Hx|[Hx|[]]]; discriminate Hx.
Qed.

(** C7, amended: when the handler has returned [e] and the stop channel
    is closed at the same instant of the racing wait, before the deadline,
    the select takes either case, at the choice of the scheduler (here the
    parity of [pick1], the two cases being the only ones that can proceed);
    whichever it takes, handle returns [e] at that instant. *)
Theorem race_of_done_and_stop (s : Worker) (job : Job) (env : Env) (d : N) (e : error) (ts : Z) :
  let start := now env in
  let ctx := WithTimeout start (Timeout job) in
  let t := start + Z.of_N d in
  is_int64 (Timeout job) ->
  runFunc s ctx (AJob job) = Completes d (Returns e) ->
  stop_chan s env = from ts tt ->
  Z.max start ts = t ->
  Z.of_N d < Timeout job ->
  exists r,
    handle s job env = Some r /\
    hd_error (trace r) =
      Some (Recv (match (pick1 env mod 2)%nat with
                  | O => Stop
                  | _ => DoneChan
                  end) t) /\
    outcome_of r = Returned e /\
    returned_at r = t.
Proof.
  intros start ctx t HT Hrun Hstop Hsame Hd.
  pose proof (on_stop_spec s job env start ctx t) as Hs.
  cbv zeta in Hs.
  rewrite left_time in Hs by (try assumption; lia).
  unfold resumed in Hs. rewrite Hrun in Hs. cbn [completed_by] in Hs.
  fold t in Hs. rewrite Z.leb_refl in Hs.
  destruct Hs as (r & c & Hr & _ & _ & Htr & Hout & _ & Hbefore).
  assert (Hmax : Z.max t t < t + Z.max 0 (Timeout job - (t - start))) by lia.
  pose proof (Hbefore d (Returns e) eq_refl Hmax) as ->.
  destruct Hout as (d0 & v & [= <- <-] & Ho & Hret).
  subst start ctx t. unfold WithTimeout in *. unfold handle, WithTimeout.
  rewrite Hrun, Hstop. race.
  all: assert (fire = now env + Z.of_N d) as -> by lia.
  - exists r. split; [exact Hr|]. rewrite Htr. cbn [hd_error].
    repeat split; try assumption. lia.
  - eexists. split; [reflexivity|]. repeat split.
Qed.

(** ** Runs of the tests *)

(** TestJobReachTimeout: a timeout of 20 and a handler that polls every
    50. *)
Example job_reaches_timeout :
  handle (worker_of polling_handler) job_20 quiet =
  Some {| outcome_of := Returned (Some DeadlineExceeded);
          returned_at := 20;
          ctx_end := {| deadline := 20; cancelled := None |};
          trace := [Recv CtxDone 20; Cancel 20] |}.
Proof. reflexivity. Qed.

(** TestCancelJobAfterShutdown: a timeout of 3000, a Shutdown at 2000 and
    a handler that polls every 50. *)
Example job_cancelled_by_shutdown :
  handle (worker_of polling_handler) job_3000 shutdown_2000 =
  Some {| outcome_of := Returned nil;
          returned_at := 2000;
          ctx_end := {| deadline := 3000; cancelled := Some 2000 |};
          trace := [Recv Stop 2000; Cancel 2000; Timer 2000 1000;
                    Recv DoneChan 2000; Cancel 2000] |}.
Proof. reflexivity. Qed.

(** A handler that ignores the cancellation is abandoned at its original
    deadline. *)
Example job_abandoned :
  handle (worker_of deaf_handler) job_1000 shutdown_100 =
  Some {| outcome_of := Returned (Some DeadlineExceeded);
          returned_at := 1000;
          ctx_end := {| deadline := 1000; cancelled := Some 100 |};
          trace := [Recv Stop 100; Cancel 100; Timer 100 900;
                    Recv TimeAfter 1000; Cancel 1000] |}.
Proof. reflexivity. Qed.

(** TestRedisShutdown and TestEnqueueJobAfterShutdown. *)
Example shutdown_twice_then_queue :
  let s1 := leaves (Shutdown (NewWorker [WithChannel "test2"])) in
  ends (Shutdown (NewWorker [WithChannel "test2"])) = Returned nil /\
  ends (Shutdown s1) = Returned (Some ErrQueueShutdown) /\
  ends (Queue s1 (AMessage [])) = Returned (Some ErrQueueShutdown) /\
  ends (Run s1) = Returned (Some ErrQueueShutdown).
Proof. repeat split. Qed.

(** ** Witnesses *)

Lemma int64_1000 : is_int64 1000.
Proof. unfold is_int64, min_int64, max_int64. cbn. lia. Defined.

Lemma int64_0 : is_int64 0.
Proof. unfold is_int64, min_int64, max_int64. cbn. lia. Defined.

Lemma handle_returns_handler_value_witness :
  exists r,
    handle (worker_of slow_handler) job_1000 quiet = Some r /\
    outcome_of r = Returned nil /\
    returned_at r = 500 /\
    trace r = [Recv DoneChan 500; Cancel 500].
Proof.
  apply (handle_returns_handler_value (worker_of slow_handler) job_1000 quiet
           500 nil); [reflexivity | cbn; lia | reflexivity].
Defined.

Lemma handle_times_out_witness :
  exists r,
    handle (worker_of deaf_handler) job_1000 quiet = Some r /\
    outcome_of r = Returned (Some DeadlineExceeded) /\
    outcome_of r = Returned (Err (WithTimeout 0 1000) (returned_at r)) /\
    returned_at r = 1000 /\
    trace r = [Recv CtxDone 1000; Cancel 1000] /\
    ready (Done (ctx_end r)) (returned_at r) = true /\
    Err (ctx_end r) (returned_at r) = Some DeadlineExceeded.
Proof.
  apply (handle_times_out (worker_of deaf_handler) job_1000 quiet);
    reflexivity.
Defined.


Lemma handle_waits_remaining_budget_witness :
  (exists r,
     handle (worker_of deaf_handler) job_1000 shutdown_100 = Some r /\
     trace r = [Recv Stop 100; Cancel 100; Timer 100 900;
                Recv TimeAfter 1000; Cancel 1000] /\
     ctx_end r = {| deadline := 1000; cancelled := Some 100 |} /\
     outcome_of r = Returned (Some DeadlineExceeded) /\
     returned_at r = 1000) /\
  (exists r,
     handle (worker_of polite_handler) job_1000 shutdown_100 = Some r /\
     outcome_of r = Returned (Some Canceled) /\
     returned_at r = 105).
Proof.
  split.
  - destruct (handle_waits_remaining_budget (worker_of deaf_handler) job_1000
                shutdown_100 100 int64_1000 eq_refl eq_refl eq_refl)
      as (r & c & Hr & Htr & Hend & _ & _ & _ & _ & _ & _ & Hnever & _).
    destruct (Hnever eq_refl) as (Hc & Hout & Hret).
    exists r. rewrite Htr, Hc, Hret.
    repeat split; assumption.
  - destruct (handle_waits_remaining_budget (worker_of polite_handler) job_1000
                shutdown_100 100 int64_1000 eq_refl eq_refl eq_refl)
      as (r & c & Hr & _ & _ & _ & _ & _ & _ & _ & _ & _ & Hdone).
    destruct (Hdone 105%N (Returns (Some Canceled)) eq_refl eq_refl)
      as (Hout & Hret).
    exists r. repeat split; assumption.
Defined.


Lemma race_of_done_and_stop_witness :
  exists r,
    handle (worker_of slow_handler) job_1000 tie_500 = Some r /\
    hd_error (trace r) = Some (Recv DoneChan 500) /\
    outcome_of r = Returned nil /\
    returned_at r = 500.
Proof.
  apply (race_of_done_and_stop (worker_of slow_handler) job_1000 tie_500
           500 nil 500); [exact int64_1000 | reflexivity | reflexivity
                          | reflexivity | cbn; lia].
Defined.

Lemma stop_flag_is_monotonic_witness :
  stopFlag (fst (exec (NewWorker []) [OpShutdown])) = 1 /\
  stopFlag (fst (exec (NewWorker [])
                   ([OpShutdown] ++ [OpQueue (AMessage []); OpShutdown; OpRun]))) = 1 /\
  stop (fst (exec (NewWorker [])
               ([OpShutdown] ++ [OpQueue (AMessage []); OpShutdown; OpRun]))) = true.
Proof.
  destruct (stop_flag_is_monotonic [] [OpShutdown]
              [OpQueue (AMessage []); OpShutdown; OpRun])
    as (_ & _ & Hflag & Hstop & _).
  split; [reflexivity|]. split; [apply Hflag | apply Hstop]; reflexivity.
Defined.

(** * More of the worker *)

(** ** Configuration *)

Lemma fold_apply_fields (opts : list Option) (w : Worker) :
  let w' := fold_left (fun w opt => apply opt w) opts w in
  addr w' = last_set addr_of opts (addr w) /\
  db w' = last_set db_of opts (db w) /\
  channelSize w' = last_set channelSize_of opts (channelSize w) /\
  password w' = last_set password_of opts (password w) /\
  connectionString w' = last_set connectionString_of opts (connectionString w) /\
  channel w' = last_set channel_of opts (channel w) /\
  runFunc w' = last_set runFunc_of opts (runFunc w).
Proof.
  revert w; induction opts as [|o opts IH]; intros w; cbn [fold_left last_set].
  - repeat split.
  - specialize (IH (apply o w)). cbv zeta in IH. unfold last_set in *.
    destruct o; cbn [fold_left] in *; exact IH.
Qed.

Lemma NewWorker_fields (opts : list Option) :
  addr (NewWorker opts) = last_set addr_of opts "127.0.0.1:6379"%string /\
  db (NewWorker opts) = last_set db_of opts 0 /\
  channelSize (NewWorker opts) = last_set channelSize_of opts 0 /\
  password (NewWorker opts) = last_set password_of opts ""%string /\
  connectionString (NewWorker opts) = last_set connectionString_of opts ""%string /\
  channel (NewWorker opts) = last_set channel_of opts "queue"%string /\
  runFunc (NewWorker opts) =
    last_set runFunc_of opts (fun _ _ => Completes 0 (Returns nil)).
Proof.
  unfold NewWorker.
  match goal with
  | |- context [fold_left _ opts ?w0] =>
      pose proof (fold_apply_fields opts w0) as H
  end.
  cbv zeta in H. exact H.
Qed.

Lemma apply_set_rdb (o : Option) (c : Client) (w : Worker) :
  apply o (set_rdb c w) = set_rdb c (apply o w).
Proof. destruct o; reflexivity. Qed.

(** X1: options are applied in the order given, so for each field of the
    configuration the last option that sets it wins and the default stays
    when none does; an option added at the end of the list acts on the
    configuration built from the others. *)
Theorem options_last_one_wins (opts : list Option) (o : Option) :
  (addr (NewWorker opts) = last_set addr_of opts "127.0.0.1:6379"%string /\
   db (NewWorker opts) = last_set db_of opts 0 /\
   channelSize (NewWorker opts) = last_set channelSize_of opts 0 /\
   password (NewWorker opts) = last_set password_of opts ""%string /\
   connectionString (NewWorker opts) = last_set connectionString_of opts ""%string /\
   channel (NewWorker opts) = last_set channel_of opts "queue"%string /\
   runFunc (NewWorker opts) =
     last_set runFunc_of opts (fun _ _ => Completes 0 (Returns nil))) /\
  (addr (NewWorker (opts ++ [o])) = addr (apply o (NewWorker opts)) /\
   db (NewWorker (opts ++ [o])) = db (apply o (NewWorker opts)) /\
   channelSize (NewWorker (opts ++ [o])) = channelSize (apply o (NewWorker opts)) /\
   password (NewWorker (opts ++ [o])) = password (apply o (NewWorker opts)) /\
   connectionString (NewWorker (opts ++ [o])) =
     connectionString (apply o (NewWorker opts)) /\
   channel (NewWorker (opts ++ [o])) = channel (apply o (NewWorker opts)) /\
   runFunc (NewWorker (opts ++ [o])) = runFunc (apply o (NewWorker opts))).
Proof.
  split; [apply NewWorker_fields|].
  unfold NewWorker. rewrite fold_left_app. cbn [fold_left].
  rewrite <- apply_set_rdb. repeat split.
Qed.

(** X2: a connection string that is not empty decides alone what the
    client is dialled with: the address, password and database options are
    then ignored.  Without one, the address, password and database are
    used; and when the address is empty too, NewWorker hands the nil
    options it declared to redis.NewClient. *)
Theorem connection_string_takes_precedence (opts : list Option) :
  let cs := last_set connectionString_of opts ""%string in
  let a := last_set addr_of opts "127.0.0.1:6379"%string in
  (cs <> ""%string -> options_for (NewWorker opts) = ParseURL cs) /\
  (cs = ""%string -> a <> ""%string ->
     options_for (NewWorker opts) =
       Options a (last_set password_of opts ""%string) (last_set db_of opts 0)) /\
  (cs = ""%string -> a = ""%string -> options_for (NewWorker opts) = NilOptions).
Proof.
  intros cs a.
  destruct (NewWorker_fields opts) as (Ha & Hd & _ & Hp & Hc & _).
  unfold options_for. rewrite Ha, Hd, Hp, Hc. fold cs a.
  repeat split.
  - intros Hcs. destruct (String.eqb_spec cs ""); [contradiction | reflexivity].
  - intros Hcs Hne. destruct (String.eqb_spec cs ""); [|contradiction].
    destruct (String.eqb_spec a ""); [contradiction | reflexivity].
  - intros Hcs He. destruct (String.eqb_spec cs ""); [|contradiction].
    destruct (String.eqb_spec a ""); [reflexivity | contradiction].
Qed.

Lemma connection_string_takes_precedence_witness :
  options_for (NewWorker [WithConnectionString "redis://h:6379/2";
                          WithAddr "10.0.0.1:6379"; WithPassword "p"; WithDB 3]) =
    ParseURL "redis://h:6379/2" /\
  options_for (NewWorker [WithPassword "p"; WithDB 3]) =
    Options "127.0.0.1:6379" "p" 3 /\
  options_for (NewWorker [WithAddr ""]) = NilOptions.
Proof.
  split; [|split].
  - apply (connection_string_takes_precedence
             [WithConnectionString "redis://h:6379/2";
              WithAddr "10.0.0.1:6379"; WithPassword "p"; WithDB 3]).
    discriminate.
  - apply (connection_string_takes_precedence [WithPassword "p"; WithDB 3]);
      [reflexivity | discriminate].
  - apply (connection_string_takes_precedence [WithAddr ""]); reflexivity.
Defined.

(** ** The gate after any history *)

(** X3: after any sequence of operations on a worker made by NewWorker,
    Queue and Run give the same answer: ErrQueueShutdown when the sequence
    has a Shutdown, nil when it has none; and Run, like Queue, leaves the
    worker as it found it. *)
Theorem gate_follows_shutdown (opts : list Option) (ops : list Op)
  (m : QueuedMessage) :
  let s := fst (exec (NewWorker opts) ops) in
  ends (Run s) =
    Returned (if existsb is_shutdown ops then Some ErrQueueShutdown else nil) /\
  ends (Queue s m) = ends (Run s) /\
  leaves (Run s) = s /\
  effects (Run s) = [].
Proof.
  intros s; subst s.
  pose proof (exec_active (NewWorker opts) ops (NewWorker_active opts)) as H.
  unfold Run, Queue, LoadInt32.
  destruct (existsb is_shutdown ops).
  - destruct H as ((Hf & _ & Hs & _) & _). rewrite Hf, Hs. repeat split.
  - destruct H as (-> & _).
    destruct (NewWorker_active opts) as (Hf & _ & Hs & _).
    rewrite Hf, Hs. repeat split.
Qed.

(** ** The default handler *)

Lemma last_set_unset {A : Type} (get : Option -> option A) (opts : list Option)
  (default : A) :
  (forall o, In o opts -> get o = None) -> last_set get opts default = default.
Proof.
  unfold last_set. revert default.
  induction opts as [|o opts IH]; intros default H; cbn [fold_left].
  - reflexivity.
  - rewrite (H o (or_introl eq_refl)). apply IH.
    intros o' Ho'. apply H. now right.
Qed.

(** X4: a worker made without WithRunFunc has the handler that returns nil
    at once: whatever the other options, handle returns nil for every job
    with a positive timeout at the instant it is called, provided the stop
    channel is not closed at that instant. *)
Theorem default_handler_returns_nil (opts : list Option) (job : Job) (env : Env) :
  (forall fn, ~ In (WithRunFunc fn) opts) ->
  0 < Timeout job ->
  ready (stop_chan (NewWorker opts) env) (now env) = false ->
  handle (NewWorker opts) job env =
    Some {| outcome_of := Returned nil;
            returned_at := now env;
            ctx_end := {| deadline := now env + Timeout job;
                          cancelled := Some (now env) |};
            trace := [Recv DoneChan (now env); Cancel (now env)] |}.
Proof.
  intros Hno HT Hstop.
  destruct (NewWorker_fields opts) as (_ & _ & _ & _ & _ & _ & Hrun).
  rewrite last_set_unset in Hrun.
  2:{ intros o Ho. destruct o; try reflexivity. exfalso. exact (Hno _ Ho). }
  unfold handle. rewrite Hrun.
  destruct (stop_chan (NewWorker opts) env) as [[ts []]|]; cbn [ready] in Hstop;
    [apply Z.leb_gt in Hstop|]; race.
  all: assert (fire = now env) as -> by lia.
  all: unfold leave, cancel; cbn [cancelled deadline app]; now leb_cases.
Qed.

Lemma default_handler_returns_nil_witness :
  handle (NewWorker [WithAddr "10.0.0.1:6379"; WithChannel "jobs"]) job_20 shutdown_100 =
    Some {| outcome_of := Returned nil;
            returned_at := 0;
            ctx_end := {| deadline := 20; cancelled := Some 0 |};
            trace := [Recv DoneChan 0; Cancel 0] |}.
Proof.
  apply (default_handler_returns_nil
           [WithAddr "10.0.0.1:6379"; WithChannel "jobs"] job_20 shutdown_100).
  - intros fn [H|[H|[]]]; discriminate H.
  - cbn; lia.
  - reflexivity.
Defined.

(** ** Every run of handle *)

Lemma resumed_either (f : RunFunc) (start t : Z) (ctx ctx' : Context)
  (m : QueuedMessage) :
  resumed f start t ctx ctx' m = f ctx m \/ resumed f start t ctx ctx' m = f ctx' m.
Proof. unfold resumed. destruct (completed_by _ _ _); auto. Qed.

(** X6: handle makes up no result but the expiry: whatever it returns or
    raises is either context.DeadlineExceeded, or what the handler itself
    returned or raised, no later than the instant handle is left, on one
    of two contexts only: the job's context as handle made it, or, when
    handle took the stop case at an instant [t] at which the stop channel
    was closed and the handler had not completed, that context as the
    cancel() of the stop case left it at [t].  So the stop of the worker
    never shows in the result of handle as an error of its own. *)
Theorem handle_outcome_comes_from_handler (s : Worker) (job : Job) (env : Env) :
  let start := now env in
  let ctx := WithTimeout start (Timeout job) in
  exists r,
    handle s job env = Some r /\
    (outcome_of r = Returned (Some DeadlineExceeded) \/
     exists d cpl,
       outcome_of r =
         match cpl with Returns e => Returned e | Panics p => Panicked p end /\
       start + Z.of_N d <= returned_at r /\
       (runFunc s ctx (AJob job) = Completes d cpl \/
        exists t,
          hd_error (trace r) = Some (Recv Stop t) /\
          ready (stop_chan s env) t = true /\
          ctx_end r = cancel (cancel ctx t) (returned_at r) /\
          completed_by start t (runFunc s ctx (AJob job)) = false /\
          runFunc s (cancel ctx t) (AJob job) = Completes d cpl)).
Proof.
  intros start ctx.
  destruct (handle_spec s job env) as (r & c & t & Hr & Hhd & Ht & Hcase).
  fold start ctx in Hcase.
  exists r. split; [exact Hr|].
  destruct c; try contradiction.
  - destruct Hcase as (d & p & Hrun & Hd & ->).
    right. exists d, (Panics p). cbn [leave outcome_of returned_at].
    split; [reflexivity|]. split; [exact Hd|]. now left.
  - destruct Hcase as (_ & ->). now left.
  - destruct Hcase as (Hready & Hon).
    destruct (on_stop_spec s job env start ctx t)
      as (r' & c & Hr' & Hctx & Hat & _ & Hout & _).
    rewrite Hon in Hr'. injection Hr' as <-.
    assert (Hfrom : forall d cpl,
              resumed (runFunc s) start t ctx (cancel ctx t) (AJob job)
                = Completes d cpl ->
              runFunc s ctx (AJob job) = Completes d cpl \/
              exists t0,
                hd_error (trace r) = Some (Recv Stop t0) /\
                ready (stop_chan s env) t0 = true /\
                ctx_end r = cancel (cancel ctx t0) (returned_at r) /\
                completed_by start t0 (runFunc s ctx (AJob job)) = false /\
                runFunc s (cancel ctx t0) (AJob job) = Completes d cpl).
    { intros d cpl Hres. unfold resumed in Hres.
      destruct (completed_by start t (runFunc s ctx (AJob job))) eqn:E.
      - now left.
      - right. exists t. repeat split; assumption. }
    destruct c; try contradiction.
    + destruct Hout as (d & p & Hres & Ho & Hret). right.
      exists d, (Panics p). split; [exact Ho|]. split; [lia|]. now apply Hfrom.
    + destruct Hout as (d & e & Hres & Ho & Hret). right.
      exists d, (Returns e). split; [exact Ho|]. split; [lia|]. now apply Hfrom.
    + destruct Hout as (Ho & _). now left.
  - destruct Hcase as (d & e & Hrun & Hd & ->).
    right. exists d, (Returns e). cbn [leave outcome_of returned_at].
    split; [reflexivity|]. split; [exact Hd|]. now left.
Qed.

Lemma cancelled_twice_is_done (start T t u : Z) :
  t <= u ->
  let c := cancel (cancel (WithTimeout start T) t) u in
  ready (Done c) u = true /\ Err c u <> nil /\ deadline c = start + T.
Proof.
  intros Htu. unfold cancel, WithTimeout; cbn [cancelled deadline].
  destruct (start + T <=? t) eqn:E1; cbn [cancelled deadline].
  - rewrite (proj2 (Z.leb_le _ _)) by (apply Z.leb_le in E1; lia).
    unfold Done, Err, ready, from; cbn [cancelled deadline].
    apply Z.leb_le in E1.
    rewrite (proj2 (Z.leb_le (start + T) u)) by lia.
    repeat split. discriminate.
  - unfold Done, Err, ready, from; cbn [cancelled deadline].
    apply Z.leb_gt in E1.
    repeat split.
    + apply Z.leb_le. lia.
    + rewrite (proj2 (Z.ltb_lt t (start + T))) by lia.
      rewrite (proj2 (Z.leb_le t u)) by lia. discriminate.
Qed.

Lemma cancelled_once_is_done (start T t : Z) :
  let c := cancel (WithTimeout start T) t in
  ready (Done c) t = true /\ Err c t <> nil /\ deadline c = start + T.
Proof.
  unfold cancel, WithTimeout; cbn [cancelled deadline].
  destruct (start + T <=? t) eqn:E1; cbn [cancelled deadline];
    unfold Done, Err, ready, from; cbn [cancelled deadline].
  - rewrite E1. repeat split. discriminate.
  - apply Z.leb_gt in E1. repeat split.
    + apply Z.leb_le. lia.
    + rewrite (proj2 (Z.ltb_lt t (start + T))) by lia.
      rewrite Z.leb_refl. discriminate.
Qed.

(** X7: handle leaves no context open.  On every path out of handle the
    deferred cancel() is the last thing it does, so when handle is left,
    by return or by panic, the job's context is done and has an error.  On
    the paths of the racing select the context handle leaves is the one it
    made with that one cancel() applied; on the paths through the stop
    case, taken at an instant [t] at which the stop channel was closed, it
    is the one it made with the cancel() of the stop case applied at [t]
    and the deferred one after it, time.After being called once in
    between, on the time left. *)
Theorem handle_always_cancels (s : Worker) (job : Job) (env : Env) :
  let start := now env in
  let ctx := WithTimeout start (Timeout job) in
  exists r,
    handle s job env = Some r /\
    ready (Done (ctx_end r)) (returned_at r) = true /\
    Err (ctx_end r) (returned_at r) <> nil /\
    deadline (ctx_end r) = start + Timeout job /\
    ((exists c,
        c <> Stop /\
        trace r = [Recv c (returned_at r); Cancel (returned_at r)] /\
        ctx_end r = cancel ctx (returned_at r)) \/
     (exists c t,
        start <= t <= returned_at r /\
        ready (stop_chan s env) t = true /\
        trace r = [Recv Stop t; Cancel t;
                   Timer t (wrap64 (Timeout job - Since start t));
                   Recv c (returned_at r); Cancel (returned_at r)] /\
        ctx_end r = cancel (cancel ctx t) (returned_at r))).
Proof.
  intros start ctx.
  destruct (handle_spec s job env) as (r & c & t & Hr & _ & Ht & Hcase).
  fold start ctx in Ht, Hcase.
  exists r. split; [exact Hr|].
  pose proof (cancelled_once_is_done start (Timeout job) t) as H1.
  cbv zeta in H1. fold ctx in H1.
  destruct c; try contradiction.
  - destruct Hcase as (d & p & _ & _ & ->). cbn [leave ctx_end returned_at trace app].
    destruct H1 as (Ha & Hb & Hc). repeat split; try assumption.
    left. exists PanicChan. repeat split. discriminate.
  - destruct Hcase as (_ & ->). cbn [leave ctx_end returned_at trace app].
    destruct H1 as (Ha & Hb & Hc). repeat split; try assumption.
    left. exists CtxDone. repeat split. discriminate.
  - destruct Hcase as (Hready & Hon).
    destruct (on_stop_spec s job env start ctx t)
      as (r' & c & Hr' & Hctx & Hat & Htr & _).
    rewrite Hon in Hr'. injection Hr' as <-.
    destruct (cancelled_twice_is_done start (Timeout job) t (returned_at r))
      as (Ha & Hb & Hc); [lia|].
    fold ctx in Ha, Hb, Hc.
    rewrite Hctx. repeat split; try assumption.
    right. exists c, t. repeat split; try assumption; lia.
  - destruct Hcase as (d & e & _ & _ & ->). cbn [leave ctx_end returned_at trace app].
    destruct H1 as (Ha & Hb & Hc). repeat split; try assumption.
    left. exists DoneChan. repeat split. discriminate.
Qed.

(** ** The worker's history and handle *)

(** X8: Shutdown and handle meet on the stop channel.  On a worker that
    has been shut down, a job with a positive timeout whose handler has not
    completed at the call makes handle take the stop case at the very
    instant it is called: the job's context is cancelled from then on and
    handle is still left within the timeout.  On a worker that has not been
    shut down, and with no Shutdown under way, handle never takes the stop
    case: it calls neither the first cancel() nor time.After. *)
Theorem handle_sees_shutdown (opts : list Option) (ops : list Op) (job : Job)
  (env : Env) :
  let s := fst (exec (NewWorker opts) ops) in
  let start := now env in
  let ctx := WithTimeout start (Timeout job) in
  is_int64 (Timeout job) ->
  0 < Timeout job ->
  completed_by start start (runFunc s ctx (AJob job)) = false ->
  (existsb is_shutdown ops = true ->
     exists r c,
       handle s job env = Some r /\
       trace r = [Recv Stop start; Cancel start; Timer start (Timeout job);
                  Recv c (returned_at r); Cancel (returned_at r)] /\
       ctx_end r = {| deadline := start + Timeout job; cancelled := Some start |} /\
       start <= returned_at r <= start + Timeout job) /\
  (existsb is_shutdown ops = false -> shutdown_at env = None ->
     exists r c,
       handle s job env = Some r /\
       trace r = [Recv c (returned_at r); Cancel (returned_at r)] /\
       c <> Stop).
Proof.
  intros s start ctx HT Hpos Hrun.
  pose proof (exec_active (NewWorker opts) ops (NewWorker_active opts)) as H.
  fold s in H.
  split.
  - intros Hsh. rewrite Hsh in H. destruct H as ((_ & _ & Hstop & _) & _).
    assert (Hch : stop_chan s env = from start tt).
    { unfold stop_chan. now rewrite Hstop. }
    assert (Hlt : Z.max start start < start + Timeout job) by lia.
    assert (Hrun' : completed_by start (Z.max start start)
                      (runFunc s ctx (AJob job)) = false).
    { now rewrite Z.max_id. }
    destruct (stop_case s job env start HT Hch Hlt Hrun')
      as (_ & r & c & Hr & Hend & Hat & Htr & _).
    fold start in Hend, Hat, Htr.
    rewrite Z.max_id in Hend, Hat, Htr.
    replace (Timeout job - (start - start)) with (Timeout job) in Htr by lia.
    exists r, c. repeat split; try assumption; lia.
  - intros Hsh Hnone. rewrite Hsh in H. destruct H as (Hs & _).
    assert (Hch : stop_chan s env = never).
    { unfold stop_chan. rewrite Hs, Hnone.
      destruct (NewWorker_active opts) as (_ & _ & -> & _). reflexivity. }
    destruct (handle_spec s job env) as (r & c & t & Hr & _ & _ & Hcase).
    cbv zeta in Hcase. exists r, c. split; [exact Hr|].
    destruct c; try contradiction.
    + destruct Hcase as (d & p & _ & _ & ->). split; [reflexivity | discriminate].
    + destruct Hcase as (_ & ->). split; [reflexivity | discriminate].
    + destruct Hcase as (Hready & _). rewrite Hch in Hready. discriminate.
    + destruct Hcase as (d & e & _ & _ & ->). split; [reflexivity | discriminate].
Qed.

Lemma handle_sees_shutdown_witness :
  (exists r c,
     handle (fst (exec (NewWorker [WithRunFunc deaf_handler])
                    [OpQueue (AMessage []); OpShutdown; OpRun])) job_1000 quiet
       = Some r /\
     trace r = [Recv Stop 0; Cancel 0; Timer 0 1000;
                Recv c (returned_at r); Cancel (returned_at r)] /\
     ctx_end r = {| deadline := 0 + 1000; cancelled := Some 0 |} /\
     0 <= returned_at r <= 0 + 1000) /\
  (exists r c,
     handle (fst (exec (NewWorker [WithRunFunc deaf_handler])
                    [OpQueue (AMessage []); OpRun])) job_1000 quiet = Some r /\
     trace r = [Recv c (returned_at r); Cancel (returned_at r)] /\
     c <> Stop).
Proof.
  split.
  - apply (handle_sees_shutdown [WithRunFunc deaf_handler]
             [OpQueue (AMessage []); OpShutdown; OpRun] job_1000 quiet
             int64_1000); [cbn; lia | reflexivity | reflexivity].
  - apply (handle_sees_shutdown [WithRunFunc deaf_handler]
             [OpQueue (AMessage []); OpRun] job_1000 quiet
             int64_1000); [cbn; lia | reflexivity | reflexivity | reflexivity].
Defined.

Lemma handle_terminates_witness :
  exists r,
    handle (worker_of deaf_handler) job_1000 shutdown_100 = Some r /\
    0 <= returned_at r <= 0 + 1000.
Proof.
  apply (handle_terminates (worker_of deaf_handler) job_1000 shutdown_100
           int64_1000).
  cbn; lia.
Defined.

(** ** The scheduler *)

Lemma on_stop_without_tie (s : Worker) (job : Job) (env env' : Env) (start : Z)
  (ctx : Context) (t : Z) :
  let left := wrap64 (Timeout job - Since start t) in
  let r2 := resumed (runFunc s) start t ctx (cancel ctx t) (AJob job) in
  let limit := t + Z.max 0 left in
  (forall d cpl, r2 = Completes d cpl -> Z.max t (start + Z.of_N d) <> limit) ->
  on_stop s job env start ctx t = on_stop s job env' start ctx t.
Proof.
  intros left r2 limit Htie.
  unfold on_stop. fold left. fold r2.
  destruct r2 as [d [e|p]|] eqn:E;
    try specialize (Htie _ _ eq_refl);
    cbn [goroutine recover done panicChan];
    unfold select, After, from, never; cbn [recv earliest runnable]; fold limit;
    leb_cases; cbn [List.length]; rewrite ?Nat.mod_1_r; reflexivity.
Qed.

(** X9: the scheduler only decides ties.  When the deadline, the closing
    of the stop channel and the completion of the handler fall on three
    different instants as seen from the call, and the handler, once
    cancelled by the stop case, does not complete at the expiry itself,
    handle gives the same result, at the same instant and by the same
    path, whatever the scheduler picks at its two selects. *)
Theorem scheduler_only_breaks_ties (s : Worker) (job : Job) (env env' : Env) :
  let start := now env in
  let ctx := WithTimeout start (Timeout job) in
  let expiry := start + Z.max 0 (Timeout job) in
  is_int64 (Timeout job) ->
  now env' = now env ->
  shutdown_at env' = shutdown_at env ->
  (forall ts, stop_chan s env = from ts tt -> Z.max start ts <> expiry) ->
  (forall d cpl, runFunc s ctx (AJob job) = Completes d cpl ->
     start + Z.of_N d <> expiry) ->
  (forall ts d cpl, stop_chan s env = from ts tt ->
     runFunc s ctx (AJob job) = Completes d cpl ->
     Z.max start ts <> start + Z.of_N d) ->
  (forall ts d cpl, stop_chan s env = from ts tt ->
     runFunc s (cancel ctx (Z.max start ts)) (AJob job) = Completes d cpl ->
     start + Z.of_N d <> expiry) ->
  handle s job env' = handle s job env.
Proof.
  intros start ctx expiry HT Hnow Hshut H1 H2 H3 H4.
  assert (Hch : stop_chan s env' = stop_chan s env).
  { unfold stop_chan. now rewrite Hnow, Hshut. }
  subst start ctx expiry.
  unfold handle. rewrite Hch, Hnow. unfold WithTimeout in *.
  destruct (runFunc s _ (AJob job)) as [d [e|p]|] eqn:Erun;
    try specialize (H2 _ _ eq_refl);
    (destruct (stop_chan s env) as [[ts []]|] eqn:Estop;
     [specialize (H1 _ eq_refl); specialize (H4 ts);
      try specialize (H3 _ _ _ eq_refl eq_refl) |]);
    cbn [goroutine recover done panicChan];
    unfold select, Done, from, never;
    cbn [recv earliest runnable cancelled deadline];
    match goal with
    | |- context [Z.max (now env) ?m] =>
        remember (Z.max (now env) m) as fire eqn:Hfire
    end;
    leb_cases; cbn [List.length]; rewrite ?Nat.mod_1_r; cbn [nth_error];
    try reflexivity.
  all: assert (fire = Z.max (now env) ts) as -> by lia.
  all: apply on_stop_without_tie; cbv zeta;
    rewrite left_time by (try assumption; lia);
    intros d0 cpl Hres; unfold resumed in Hres; rewrite Erun in Hres;
    cbn [completed_by] in Hres.
  all: try (rewrite (proj2 (Z.leb_gt _ _)) in Hres by lia).
  all: specialize (H4 d0 cpl eq_refl Hres); lia.
Qed.

Lemma scheduler_only_breaks_ties_witness :
  handle (worker_of polite_handler) job_1000
    {| now := 0; shutdown_at := Some 100; pick1 := 7; pick2 := 5 |} =
  handle (worker_of polite_handler) job_1000 shutdown_100.
Proof.
  apply (scheduler_only_breaks_ties (worker_of polite_handler) job_1000
           shutdown_100
           {| now := 0; shutdown_at := Some 100; pick1 := 7; pick2 := 5 |}
           int64_1000 eq_refl eq_refl).
  - intros ts [= <-]. cbn. lia.
  - intros d cpl H. discriminate H.
  - intros ts d cpl _ H. discriminate H.
  - intros ts d cpl [= <-] [= <- _]. cbn. lia.
Defined.

(** ** Callers of Shutdown that run at once *)

(** X10: the three steps, taken by one caller alone, are Shutdown: from
    any worker they end the way Shutdown ends, leave the worker Shutdown
    leaves and have its effects in its order. *)
Theorem steps_alone_are_Shutdown (s : Worker) :
  let '(s1, p1, e1) := shutdown_step false s AtCAS in
  let '(s2, p2, e2) := shutdown_step false s1 p1 in
  let '(s3, p3, e3) := shutdown_step false s2 p2 in
  p3 = Finished (ends (Shutdown s)) /\
  s3 = leaves (Shutdown s) /\
  e1 ++ e2 ++ e3 = effects (Shutdown s).
Proof.
  unfold shutdown_step, Shutdown, CompareAndSwapInt32, Do, teardown.
  destruct (stopFlag s =? 0); cbn.
  - destruct (stopOnce s); cbn.
    + repeat split.
    + destruct (stop s); cbn; repeat split.
  - repeat split.
Qed.

Lemma update_app_l {A : Type} (i : nat) (x : A) (l1 r : list A) :
  (i < List.length l1)%nat -> update i x (l1 ++ r) = update i x l1 ++ r.
Proof.
  revert i; induction l1 as [|a l1 IH]; intros i Hi; cbn in *; [lia|].
  destruct i; [reflexivity|]. cbn. rewrite IH by lia. reflexivity.
Qed.

Lemma update_app_r {A : Type} (j : nat) (x : A) (l1 r : list A) :
  update (List.length l1 + j) x (l1 ++ r) = l1 ++ update j x r.
Proof.
  induction l1 as [|a l1 IH]; cbn; [reflexivity|].
  destruct r; now rewrite IH.
Qed.

Lemma update_length {A : Type} (i : nat) (x : A) (l : list A) :
  List.length (update i x l) = List.length l.
Proof.
  revert i; induction l as [|a l IH]; intros [|i]; cbn; auto.
Qed.

Lemma Forall_update {A : Type} (P : A -> Prop) (i : nat) (x : A) (l : list A) :
  Forall P l -> P x -> Forall P (update i x l).
Proof.
  intros Hl Hx. revert i; induction Hl as [|a l Ha Hl IH]; intros [|i]; cbn;
    constructor; auto.
Qed.

Lemma losers_not_inside (l : list pc) :
  Forall loser l -> existsb inside_once l = false.
Proof.
  induction 1 as [|p l [-> | ->] _ IH]; cbn; auto.
Qed.

Lemma losers_not_nil (l : list pc) :
  Forall loser l -> filter returned_nil l = [].
Proof.
  induction 1 as [|p l [-> | ->] _ IH]; cbn; auto.
Qed.

(** A caller that has not won steps without touching what the winner
    needs. *)
Lemma loser_step (busy : bool) (s : Worker) (p : pc) :
  loser p -> stopFlag s = 1 ->
  let '(s', p', e) := shutdown_step busy s p in
  loser p' /\ e = [] /\
  stopFlag s' = 1 /\ stopOnce s' = stopOnce s /\ stop s' = stop s /\
  rdb s' = rdb s.
Proof.
  intros [-> | ->] Hf; cbn; unfold CompareAndSwapInt32; rewrite ?Hf; cbn.
  - repeat split. now right.
  - repeat split; auto. now right.
Qed.

Lemma winner_step (s : Worker) (p : pc) (e : list effect) :
  winner p s e ->
  let '(s', p', e') := shutdown_step false s p in
  winner p' s' (e ++ e') /\ (steps_left p = 0%nat \/ steps_left p' < steps_left p)%nat.
Proof.
  intros (Hf & [(-> & Ho & Hs & Hc & ->) | [(-> & Ho & Hs & Hc & ->)
                                           | (-> & Ho & Hs & Hc & ->)]]); cbn.
  - rewrite Ho. cbn. split; [|right; lia].
    split; [exact Hf|]. right; left. cbn. rewrite Hc. repeat split; assumption.
  - rewrite Hs. cbn. split; [|right; lia].
    split; [exact Hf|]. right; right. repeat split. exact Hc.
  - split; [|left; reflexivity].
    split; [exact Hf|]. right; right. repeat split; assumption.
Qed.

Lemma caller_step_safe (i : nat) (sys : system) :
  safe sys -> safe (caller_step i sys).
Proof.
  intros [(Hact & Hall & Hperf) | (l1 & p & l2 & Hc & H1 & H2 & Hw)];
    unfold caller_step.
  - destruct (nth_error (callers sys) i) as [q|] eqn:E; [|left; auto].
    assert (Hq : q = AtCAS).
    { symmetry. eapply Forall_forall in Hall; [exact Hall|].
      eapply nth_error_In; exact E. }
    subst q.
    destruct (nth_error_split _ _ E) as (l1 & l2 & Hc & Hlen).
    destruct Hact as (Hf & Ho & Hs & Hcl).
    cbn. unfold CompareAndSwapInt32. rewrite Hf. cbn.
    right. exists l1, AtOnce, l2. cbn.
    rewrite Hc in Hall. apply Forall_app in Hall. destruct Hall as (Ha1 & Ha2).
    inversion Ha2 as [|? ? _ Ha2']; subst.
    split; [|split; [|split]].
    + rewrite Hc. rewrite <- (Nat.add_0_r (List.length l1)).
      now rewrite update_app_r.
    + eapply Forall_impl; [|exact Ha1]. intros ? <-. now left.
    + eapply Forall_impl; [|exact Ha2']. intros ? <-. now left.
    + rewrite Hperf. split; [reflexivity|]. left. repeat split; assumption.
  - destruct (nth_error (callers sys) i) as [q|] eqn:E;
      [|right; exists l1, p, l2; auto].
    assert (Hbusy : existsb inside_once (callers sys) = inside_once p).
    { rewrite Hc, existsb_app. cbn.
      rewrite (losers_not_inside _ H1), (losers_not_inside _ H2).
      cbn. now rewrite orb_false_r. }
    destruct Hw as (Hf & Hw).
    rewrite Hc in E.
    destruct (Nat.lt_ge_cases i (List.length l1)) as [Hlt | Hge].
    + rewrite nth_error_app1 in E by exact Hlt.
      assert (Hq : loser q).
      { eapply Forall_forall in H1; [exact H1|]. eapply nth_error_In; exact E. }
      pose proof (loser_step (existsb inside_once (callers sys)) (shared sys) q Hq Hf)
        as Hstep.
      destruct (shutdown_step _ (shared sys) q) as [[s' q'] e'].
      destruct Hstep as (Hq' & -> & Hf' & Ho' & Hs' & Hr').
      right. exists (update i q' l1), p, l2. cbn.
      split; [rewrite Hc; now apply update_app_l|].
      split; [now apply Forall_update|]. split; [exact H2|].
      rewrite app_nil_r. split; [exact Hf'|].
      rewrite Ho', Hs', Hr'. exact Hw.
    + rewrite nth_error_app2 in E by exact Hge.
      destruct (i - List.length l1)%nat as [|j] eqn:Ej; cbn in E.
      * injection E as <-.
        assert (Hi : i = (List.length l1 + 0)%nat) by lia.
        assert (Hnb : existsb inside_once (callers sys) = false \/ p = AtCloseStop).
        { rewrite Hbusy. destruct p; cbn; auto. }
        pose proof (winner_step (shared sys) p (performed sys) (conj Hf Hw))
          as Hstep.
        assert (Hsame : shutdown_step (existsb inside_once (callers sys))
                          (shared sys) p = shutdown_step false (shared sys) p).
        { destruct Hnb as [-> | ->]; reflexivity. }
        rewrite Hsame.
        destruct (shutdown_step false (shared sys) p) as [[s' p'] e'].
        destruct Hstep as (Hw' & _).
        right. exists l1, p', l2. cbn.
        split; [rewrite Hc, Hi; now rewrite update_app_r|].
        split; [exact H1|]. split; [exact H2|]. exact Hw'.
      * assert (Hq : loser q).
        { eapply Forall_forall in H2; [exact H2|]. eapply nth_error_In; exact E. }
        pose proof (loser_step (existsb inside_once (callers sys)) (shared sys) q Hq Hf)
          as Hstep.
        destruct (shutdown_step _ (shared sys) q) as [[s' q'] e'].
        destruct Hstep as (Hq' & -> & Hf' & Ho' & Hs' & Hr').
        right. exists l1, p, (update j q' l2). cbn.
        assert (Hi : i = (List.length l1 + S j)%nat) by lia.
        split; [rewrite Hc, Hi; now rewrite update_app_r|].
        split; [exact H1|]. split; [now apply Forall_update|].
        rewrite app_nil_r. split; [exact Hf'|].
        rewrite Ho', Hs', Hr'. exact Hw.
Qed.

Lemma interleave_safe (schedule : list nat) (sys : system) :
  safe sys -> safe (interleave schedule sys).
Proof.
  unfold interleave. revert sys.
  induction schedule as [|i schedule IH]; intros sys H; cbn [fold_left].
  - exact H.
  - apply IH. now apply caller_step_safe.
Qed.

Lemma start_system_safe (opts : list Option) (n : nat) :
  safe (start_system (NewWorker opts) n).
Proof.
  left. cbn. split; [apply NewWorker_active|]. split; [|reflexivity].
  apply Forall_forall. intros p Hp. symmetry. eapply repeat_spec; exact Hp.
Qed.

Lemma caller_step_length (i : nat) (sys : system) :
  List.length (callers (caller_step i sys)) = List.length (callers sys).
Proof.
  unfold caller_step. destruct (nth_error (callers sys) i); [|reflexivity].
  destruct (shutdown_step _ _ _) as [[s' p'] e']. cbn. apply update_length.
Qed.

Lemma interleave_length (schedule : list nat) (sys : system) :
  List.length (callers (interleave schedule sys)) = List.length (callers sys).
Proof.
  unfold interleave. revert sys.
  induction schedule as [|i schedule IH]; intros sys; cbn [fold_left].
  - reflexivity.
  - rewrite IH. apply caller_step_length.
Qed.

Lemma loser_not_panicked (p : pc) (v : any) :
  loser p -> p <> Finished (Panicked v).
Proof. intros [-> | ->]; discriminate. Qed.

(** X11: however the steps of any number of concurrent callers of
    Shutdown on a new worker interleave, no caller panics, at most one has
    returned nil, and the effects so far are a beginning of rdb.Close()
    followed by close(s.stop), each done once at most.  Once all the
    callers have returned, exactly one has returned nil and every other
    one ErrQueueShutdown, the client and the stop channel have been closed
    once each, in that order, and the worker is shut down. *)
Theorem concurrent_Shutdown_tears_down_once (opts : list Option) (n : nat)
  (schedule : list nat) :
  let sys := interleave schedule (start_system (NewWorker opts) n) in
  List.length (callers sys) = n /\
  (forall p v, In p (callers sys) -> p <> Finished (Panicked v)) /\
  (List.length (filter returned_nil (callers sys)) <= 1)%nat /\
  (performed sys = [] \/ performed sys = [RdbClose] \/
   performed sys = [RdbClose; CloseStop]) /\
  (forallb finished (callers sys) = true -> (0 < n)%nat ->
     List.length (filter returned_nil (callers sys)) = 1%nat /\
     (forall p, In p (callers sys) ->
        p = Finished (Returned nil) \/
        p = Finished (Returned (Some ErrQueueShutdown))) /\
     performed sys = [RdbClose; CloseStop] /\
     shut_down (shared sys)).
Proof.
  intros sys.
  assert (Hlen : List.length (callers sys) = n).
  { unfold sys. rewrite interleave_length. cbn. apply repeat_length. }
  pose proof (interleave_safe schedule _ (start_system_safe opts n)) as Hsafe.
  fold sys in Hsafe.
  split; [exact Hlen|].
  destruct Hsafe as [(Hact & Hall & Hperf) | (l1 & p & l2 & Hc & H1 & H2 & Hw)].
  - assert (Hnil : filter returned_nil (callers sys) = []).
    { apply losers_not_nil. eapply Forall_impl; [|exact Hall].
      intros ? <-. now left. }
    split; [|split; [|split]].
    + intros p v Hp. eapply Forall_forall in Hall; [|exact Hp].
      subst p. discriminate.
    + rewrite Hnil. cbn. lia.
    + now left.
    + intros Hfin Hn. exfalso.
      destruct (callers sys) as [|q l] eqn:E; [cbn in Hlen; lia|].
      inversion Hall as [|? ? Hq _]; subst. cbn in Hfin. discriminate.
  - assert (Hcount : filter returned_nil (callers sys) =
                     if returned_nil p then [p] else []).
    { rewrite Hc, filter_app. cbn [filter].
      rewrite (losers_not_nil _ H1), (losers_not_nil _ H2).
      destruct (returned_nil p); reflexivity. }
    destruct Hw as (Hf & Hw).
    split; [|split; [|split]].
    + intros q v Hq. rewrite Hc in Hq. apply in_app_or in Hq.
      destruct Hq as [Hq | [<- | Hq]].
      * apply loser_not_panicked. eapply Forall_forall in H1; eauto.
      * destruct Hw as [(-> & _) | [(-> & _) | (-> & _)]]; discriminate.
      * apply loser_not_panicked. eapply Forall_forall in H2; eauto.
    + rewrite Hcount. destruct (returned_nil p); cbn; lia.
    + destruct Hw as [(_ & _ & _ & _ & ->) | [(_ & _ & _ & _ & ->)
                                             | (_ & _ & _ & _ & ->)]]; auto.
    + intros Hfin Hn.
      rewrite Hc, forallb_app in Hfin. cbn [forallb] in Hfin.
      apply andb_prop in Hfin. destruct Hfin as (Hf1 & Hfin).
      apply andb_prop in Hfin. destruct Hfin as (Hfp & Hf2).
      destruct Hw as [(-> & _) | [(-> & _) | (-> & Ho & Hs & Hcl & Hperf)]];
        try discriminate Hfp.
      split; [rewrite Hcount; reflexivity|].
      split; [|split; [exact Hperf | repeat split; assumption]].
      intros q Hq. rewrite Hc in Hq. apply in_app_or in Hq.
      assert (Hlose : forall l, Forall loser l -> forallb finished l = true ->
                In q l -> q = Finished (Returned (Some ErrQueueShutdown))).
      { intros l Hl Hfl Hin.
        rewrite forallb_forall in Hfl. specialize (Hfl q Hin).
        eapply Forall_forall in Hl; [|exact Hin].
        destruct Hl as [-> | ->]; [discriminate | reflexivity]. }
      destruct Hq as [Hq | [<- | Hq]]; [right | left | right]; eauto.
Qed.

Lemma nth_error_update {A : Type} (i : nat) (x a : A) (l : list A) :
  nth_error l i = Some a -> nth_error (update i x l) i = Some x.
Proof.
  revert i; induction l as [|b l IH]; intros [|i] H; cbn in *;
    try discriminate; auto.
Qed.

Lemma nobody_waits_for_Do (sys : system) :
  safe sys -> In AtOnce (callers sys) ->
  existsb inside_once (callers sys) = false.
Proof.
  intros [(_ & Hall & _) | (l1 & p & l2 & Hc & H1 & H2 & Hw)] Hin.
  - eapply Forall_forall in Hall; [|exact Hin]. discriminate.
  - rewrite Hc in *. rewrite existsb_app. cbn.
    rewrite (losers_not_inside _ H1), (losers_not_inside _ H2).
    apply in_app_or in Hin. destruct Hin as [Hin | [-> | Hin]].
    + eapply Forall_forall in H1; [|exact Hin].
      destruct H1 as [H | H]; discriminate H.
    + reflexivity.
    + eapply Forall_forall in H2; [|exact Hin].
      destruct H2 as [H | H]; discriminate H.
Qed.

(** X12: no caller of Shutdown ever waits for another.  However the
    callers have interleaved so far, the next step of a caller that has
    not returned brings it nearer to its return, so that each call is over
    after three steps of its own at most, whatever the others do: the
    mutex of stopOnce is never contended, because only the caller whose
    compare-and-swap took place gets to Do. *)
Theorem Shutdown_never_waits (opts : list Option) (n : nat)
  (schedule : list nat) (i : nat) (p : pc) :
  let sys := interleave schedule (start_system (NewWorker opts) n) in
  nth_error (callers sys) i = Some p ->
  finished p = false ->
  exists p',
    nth_error (callers (caller_step i sys)) i = Some p' /\
    (steps_left p' < steps_left p)%nat.
Proof.
  intros sys Hp Hfin.
  pose proof (interleave_safe schedule _ (start_system_safe opts n)) as Hsafe.
  fold sys in Hsafe.
  unfold caller_step. rewrite Hp.
  assert (Hstep : forall s, exists s' p' e',
            shutdown_step (existsb inside_once (callers sys)) s p = (s', p', e') /\
            (steps_left p' < steps_left p)%nat).
  { intros s. destruct p; try discriminate Hfin; cbn.
    - unfold CompareAndSwapInt32. destruct (stopFlag s =? 0); cbn;
        do 3 eexists; (split; [reflexivity | cbn; lia]).
    - rewrite (nobody_waits_for_Do sys Hsafe (nth_error_In _ _ Hp)).
      destruct (stopOnce s); do 3 eexists; (split; [reflexivity | cbn; lia]).
    - destruct (stop s); do 3 eexists; (split; [reflexivity | cbn; lia]). }
  destruct (Hstep (shared sys)) as (s' & p' & e' & -> & Hlt).
  exists p'. cbn. split; [|exact Hlt].
  eapply nth_error_update; exact Hp.
Qed.

Lemma concurrent_Shutdown_tears_down_once_witness :
  let sys := interleave [2; 0; 2; 1; 1; 0; 2; 0]%nat
               (start_system (NewWorker []) 3) in
  List.length (filter returned_nil (callers sys)) = 1%nat /\
  (forall p, In p (callers sys) ->
     p = Finished (Returned nil) \/
     p = Finished (Returned (Some ErrQueueShutdown))) /\
  performed sys = [RdbClose; CloseStop] /\
  shut_down (shared sys).
Proof.
  intros sys.
  destruct (concurrent_Shutdown_tears_down_once [] 3
              [2; 0; 2; 1; 1; 0; 2; 0]%nat) as (_ & _ & _ & _ & Hall).
  apply Hall; [reflexivity | lia].
Defined.

Lemma Shutdown_never_waits_witness :
  exists p',
    nth_error (callers (caller_step 0
                 (interleave [2; 2]%nat (start_system (NewWorker []) 3)))) 0
      = Some p' /\
    (steps_left p' < steps_left AtCAS)%nat.
Proof.
  apply (Shutdown_never_waits [] 3 [2; 2]%nat 0 AtCAS); reflexivity.
Defined.

(** X13: the flag is set before the channel is closed.  At every moment of
    every interleaving of concurrent callers of Shutdown, a worker on
    which Run reports the shutdown makes Queue report it too (Queue may
    refuse jobs a little before Run notices, never after), and once every
    caller has returned both report it. *)
Theorem Queue_refuses_before_Run (opts : list Option) (n : nat)
  (schedule : list nat) (m : QueuedMessage) :
  let s := shared (interleave schedule (start_system (NewWorker opts) n)) in
  let sys := interleave schedule (start_system (NewWorker opts) n) in
  (ends (Run s) = Returned (Some ErrQueueShutdown) ->
   ends (Queue s m) = Returned (Some ErrQueueShutdown)) /\
  (forallb finished (callers sys) = true -> (0 < n)%nat ->
   ends (Run s) = Returned (Some ErrQueueShutdown) /\
   ends (Queue s m) = Returned (Some ErrQueueShutdown)).
Proof.
  intros s sys.
  pose proof (interleave_safe schedule _ (start_system_safe opts n)) as Hsafe.
  fold sys in Hsafe. fold s in Hsafe.
  assert (Hlen : List.length (callers sys) = n).
  { unfold sys. rewrite interleave_length. cbn. apply repeat_length. }
  unfold Run, Queue, LoadInt32.
  destruct Hsafe as [((Hf & _ & Hs & _) & Hall & _)
                    | (l1 & p & l2 & Hc & H1 & H2 & Hf & Hw)].
  - change (shared sys) with s in *. rewrite Hs, Hf. cbn. split.
    + discriminate.
    + intros Hfin Hn. exfalso.
      destruct (callers sys) as [|q l] eqn:E; [cbn in Hlen; lia|].
      inversion Hall as [|? ? Hq _]; subst. cbn in Hfin. discriminate.
  - change (shared sys) with s in *. rewrite Hf. cbn. split; [reflexivity|].
    intros Hfin _.
    rewrite Hc, forallb_app in Hfin. cbn [forallb] in Hfin.
    apply andb_prop in Hfin. destruct Hfin as (_ & Hfin).
    apply andb_prop in Hfin. destruct Hfin as (Hfp & _).
    destruct Hw as [(-> & _) | [(-> & _) | (-> & _ & -> & _)]];
      try discriminate Hfp.
    split; reflexivity.
Qed.

Lemma Queue_refuses_before_Run_witness :
  let s := shared (interleave [1; 0; 1; 1; 0]%nat (start_system (NewWorker []) 2)) in
  ends (Run s) = Returned (Some ErrQueueShutdown) /\
  ends (Queue s (AMessage [])) = Returned (Some ErrQueueShutdown).
Proof.
  intros s.
  destruct (Queue_refuses_before_Run [] 2 [1; 0; 1; 1; 0]%nat (AMessage []))
    as (_ & Hall).
  apply Hall; [reflexivity | lia].
Defined.

(** The racing select fires as soon as one of its cases can proceed. *)
Lemma handle_fires_first (s : Worker) (job : Job) (env : Env) (r : handled)
  (c : chan_name) (t : Z) :
  let start := now env in
  let ctx := WithTimeout start (Timeout job) in
  handle s job env = Some r ->
  hd_error (trace r) = Some (Recv c t) ->
  t <= Z.max start (start + Timeout job) /\
  (forall d cpl, runFunc s ctx (AJob job) = Completes d cpl ->
     t <= start + Z.of_N d) /\
  (forall ts, stop_chan s env = from ts tt -> t <= Z.max start ts).
Proof.
  intros start ctx. subst start ctx.
  unfold handle, WithTimeout.
  destruct (runFunc s _ (AJob job)) as [d [e|p]|];
    destruct (stop_chan s env) as [[ts []]|]; race.
  all: first
    [ match goal with
      | |- context [on_stop ?s ?j ?e ?st ?c ?t] =>
          destruct (on_stop_spec s j e st c t)
            as (r' & c' & Hr' & _ & _ & Htr & _);
          rewrite Hr'; intros [= <-]; rewrite Htr
      end
    | intros [= <-] ].
  all: cbn [leave trace app hd_error]; intros [= <- <-].
  all: split; [lia|]; split;
    [intros d0 cpl [= <- <-] || intros d0 cpl [=] | intros ts0 [= <-] || intros ts0 [=]];
    lia.
Qed.

(** X14: a handler that ignores its context is not cut short by a
    shutdown.  For a timeout that is not negative, when what the handler
    does is the same on every context and it does not complete at the
    expiry itself, handle ends the way the
    handler does at the instant the handler completes if that is before
    the expiry, and returns context.DeadlineExceeded at the expiry
    otherwise: the same result at the same instant whether or not, and
    whenever, the worker is shut down, and whatever the scheduler picks. *)
Theorem deaf_handler_gets_its_timeout (s : Worker) (job : Job) (env : Env) :
  let start := now env in
  let ctx := WithTimeout start (Timeout job) in
  let expiry := start + Timeout job in
  is_int64 (Timeout job) ->
  0 <= Timeout job ->
  (forall c, runFunc s c (AJob job) = runFunc s ctx (AJob job)) ->
  (forall d cpl, runFunc s ctx (AJob job) = Completes d cpl ->
     start + Z.of_N d <> expiry) ->
  exists r,
    handle s job env = Some r /\
    match runFunc s ctx (AJob job) with
    | Completes d cpl =>
        if start + Z.of_N d <? expiry
        then outcome_of r =
               match cpl with Returns e => Returned e | Panics p => Panicked p end /\
             returned_at r = start + Z.of_N d
        else outcome_of r = Returned (Some DeadlineExceeded) /\
             returned_at r = expiry
    | Hangs =>
        outcome_of r = Returned (Some DeadlineExceeded) /\ returned_at r = expiry
    end.
Proof.
  intros start ctx expiry HT Hpos Hdeaf Htie.
  destruct (handle_spec s job env) as (r & c & t & Hr & Hhd & Ht & Hcase).
  fold start ctx in Ht, Hcase.
  rewrite (Z.max_r 0 (Timeout job) Hpos) in Ht. fold expiry in Ht.
  destruct (handle_fires_first s job env r c t Hr Hhd) as (_ & Hmin & _).
  fold start ctx in Hmin.
  exists r. split; [exact Hr|].
  assert (Hstopcase :
    on_stop s job env start ctx t = Some r ->
    exists c2,
      match c2 with
      | TimeAfter =>
          outcome_of r = Returned (Some DeadlineExceeded) /\ returned_at r = expiry
      | DoneChan =>
          exists d e, runFunc s ctx (AJob job) = Completes d (Returns e) /\
            outcome_of r = Returned e /\ returned_at r = Z.max t (start + Z.of_N d)
      | PanicChan =>
          exists d p, runFunc s ctx (AJob job) = Completes d (Panics p) /\
            outcome_of r = Panicked p /\ returned_at r = Z.max t (start + Z.of_N d)
      | _ => False
      end /\ t <= returned_at r <= expiry /\
      (forall d cpl, runFunc s ctx (AJob job) = Completes d cpl ->
         Z.max t (start + Z.of_N d) < expiry ->
         c2 = match cpl with Returns _ => DoneChan | Panics _ => PanicChan end)).
  { intros Hon.
    pose proof (on_stop_spec s job env start ctx t) as Hs.
    cbv zeta in Hs. rewrite Hon in Hs.
    rewrite left_time in Hs by (try assumption; lia).
    replace (t + Z.max 0 (Timeout job - (t - start))) with expiry in Hs
      by (unfold expiry; lia).
    assert (Hres : resumed (runFunc s) start t ctx (cancel ctx t) (AJob job)
                   = runFunc s ctx (AJob job)).
    { unfold resumed.
      destruct (completed_by start t (runFunc s ctx (AJob job)));
        [reflexivity | apply Hdeaf]. }
    rewrite Hres in Hs.
    destruct Hs as (r' & c2 & Heq & _ & Hat & _ & Hout & _ & Hbefore).
    assert (Hrr : r' = r) by congruence. rewrite Hrr in *.
    exists c2. repeat split; try assumption; lia. }
  destruct (runFunc s ctx (AJob job)) as [d [e|p]|] eqn:Erun;
    try specialize (Htie _ _ eq_refl); try specialize (Hmin _ _ eq_refl).
  all: destruct c; try contradiction.
  all: try (destruct Hcase as (d0 & v & [= <- <-] & Hd & ->);
            cbn [leave outcome_of returned_at];
            rewrite (proj2 (Z.ltb_lt _ _)) by lia; split; [reflexivity | lia]).
  all: try (destruct Hcase as (d0 & v & Hbad & _); discriminate Hbad).
  all: try (destruct Hcase as (Hdl & ->); cbn [leave outcome_of returned_at];
            rewrite ?(proj2 (Z.ltb_ge _ _)) by lia; split; [reflexivity | lia]).
  all: destruct Hcase as (Hready & Hon);
    destruct (Hstopcase Hon) as (c2 & Hout & Hat & Hbefore);
    try (destruct (Z.ltb_spec (start + Z.of_N d) expiry) as [Hlt | Hge];
         [assert (Hmax : Z.max t (start + Z.of_N d) < expiry) by lia;
          rewrite (Hbefore _ _ eq_refl Hmax) in Hout;
          destruct Hout as (d0 & v & [= <- <-] & Ho & Hret);
          split; [exact Ho | lia]
         |]);
    destruct c2; try contradiction.
  all: try (destruct Hout as (d0 & v & Hbad & _); discriminate Hbad).
  all: try (destruct Hout as (d0 & v & [= <- <-] & Ho & Hret); exfalso; lia).
  all: destruct Hout as (Ho & Hret); split; assumption.
Qed.

Lemma deaf_handler_gets_its_timeout_witness :
  exists r,
    handle (worker_of slow_handler) job_1000 shutdown_100 = Some r /\
    outcome_of r = Returned nil /\
    returned_at r = 0 + 500.
Proof.
  apply (deaf_handler_gets_its_timeout (worker_of slow_handler) job_1000
           shutdown_100 int64_1000).
  - cbn; lia.
  - intros c. reflexivity.
  - intros d cpl [= <- _]. cbn. lia.
Defined.
